(** * Threat aggregation, defense rules and rule-based re-analysis

    A shallow embedding of the stateful core of [backend/server.js]:
    the in-memory attack tracker and [manageDefenseRules], the labelling
    step of the two ingestion endpoints ([/analyze/csv], [/analyze/api]),
    and the [/reanalyze/rules] endpoint together with
    [transformBlockedData] and [getAnalysisResultsByJobId].

    Conventions.
    - A JavaScript object used as a record or as a dictionary is a
      [gmap string JS.value]; reading a missing property gives
      [JS.Undefined].  Members inherited from [Object.prototype] are not
      part of the model.
    - Instants are integers (milliseconds since the epoch), which is what
      [Date.prototype.getTime] returns; an invalid date ([NaN]) is [None].
    - The database and the prediction service are collaborators whose
      answers are inputs of the model. *)

From Stdlib Require Import ZArith Lia Ascii String Sorting.Sorted.
From stdpp Require Import base gmap strings list fin_maps sorting pretty.

(** ** JavaScript values *)

Module JS.

(** Numbers are the integers (those a double holds exactly, printed in
    decimal by [String]); fractions and NaN are not modelled. *)
Inductive value : Type :=
  | Undefined
  | Null
  | Bool (b : bool)
  | Num (n : Z)
  | Str (s : string).

#[export] Instance value_eq_dec : EqDecision value.
Proof. solve_decision. Defined.

Abbreviation object := (gmap string value).

(** [ToBoolean]: what [if (v)], [!v] and [||] look at. *)
Definition truthy (v : value) : bool :=
  match v with
  | Undefined | Null => false
  | Bool b => b
  | Num n => negb (n =? 0)%Z
  | Str s => negb (String.eqb s "")
  end.

(** [a || b] *)
Definition or (a b : value) : value := if truthy a then a else b.

(** [a ?? b] *)
Definition coalesce (a b : value) : value :=
  match a with
  | Undefined | Null => b
  | _ => a
  end.

(** [a === b] and [a !== b] (there is no NaN among the modelled numbers). *)
Definition strict_eq (a b : value) : bool := bool_decide (a = b).
Definition strict_ne (a b : value) : bool := negb (strict_eq a b).

(** [o.k], [o[k]] for a string [k]. *)
Definition get (o : object) (k : string) : value := default Undefined (o !! k).

(** [ToPropertyKey]: the string under which [o[v]] looks. *)
Definition toPropertyKey (v : value) : string :=
  match v with
  | Undefined => "undefined"
  | Null => "null"
  | Bool true => "true"
  | Bool false => "false"
  | Num n => pretty n
  | Str s => s
  end.

(** The members that every plain object (an object literal) inherits
    from [Object.prototype], each with [String(member)], the text under
    which the member is used as a property key.  [o[k]] finds them
    when [o] has no property [k] of its own; each is a function but
    [__proto__], which gives the prototype object: all are truthy. *)
Definition prototypeMembers : list (string * string) :=
  [ ("constructor", "function Object() { [native code] }");
    ("__defineGetter__", "function __defineGetter__() { [native code] }");
    ("__defineSetter__", "function __defineSetter__() { [native code] }");
    ("hasOwnProperty", "function hasOwnProperty() { [native code] }");
    ("__lookupGetter__", "function __lookupGetter__() { [native code] }");
    ("__lookupSetter__", "function __lookupSetter__() { [native code] }");
    ("isPrototypeOf", "function isPrototypeOf() { [native code] }");
    ("propertyIsEnumerable",
     "function propertyIsEnumerable() { [native code] }");
    ("toString", "function toString() { [native code] }");
    ("valueOf", "function valueOf() { [native code] }");
    ("__proto__", "[object Object]");
    ("toLocaleString", "function toLocaleString() { [native code] }") ].

Definition prototypeNames : list string := fst <$> prototypeMembers.

(** [k] names an inherited member. *)
Definition inherited (k : string) : bool := bool_decide (k ∈ prototypeNames).

(** [String.prototype.toLowerCase] on the ASCII letters.  The only letters
    outside ASCII whose lower case contains an ASCII letter are U+212A
    (to "k") and U+0130 (to "i" followed by a combining dot); neither can
    produce the words this program compares with. *)
Definition lower_ascii (c : Ascii.ascii) : Ascii.ascii :=
  let n := nat_of_ascii c in
  if (65 <=? n)%nat && (n <=? 90)%nat then ascii_of_nat (n + 32) else c.

Fixpoint toLowerCase (s : string) : string :=
  match s with
  | EmptyString => EmptyString
  | String c r => String (lower_ascii c) (toLowerCase r)
  end.

(** [new Date(v).getTime()], with the parser of date strings as a
    parameter; [None] is NaN.  A number is an instant when it is within
    the range of ECMAScript time values. *)
Definition getTime (date_parse : string → option Z) (v : value) : option Z :=
  match v with
  | Undefined => None
  | Null => Some 0%Z
  | Bool b => Some (if b then 1 else 0)%Z
  | Num n => if (Z.abs n <=? 8640000000000000)%Z then Some n else None
  | Str s => date_parse s
  end.

End JS.

(** ** The rule engine: tracker and [manageDefenseRules] *)

Module RuleEngine.

Definition THRESHOLD_COUNT : nat := 50.
Definition THRESHOLD_WINDOW_MS : Z := 10000.
Definition RULE_EXPIRATION_MINUTES : Z := 60.

(** A row of the [defense_rules] table, as [manageDefenseRules] inserts
    it; [expires_at] is the instant of the ISO string. *)
Record RawFlowData := {
  trigger_flow_id : JS.value;
  threat_count : nat
}.

Record DefenseRule := {
  ip_address : string;
  threat_type : JS.value;
  expires_at : Z;
  is_active : bool;
  analysis_id : string;
  raw_flow_data : RawFlowData
}.

(** The table adds its own [created_at] to an inserted row. *)
Record StoredRule := {
  created_at : Z;
  rule : DefenseRule
}.

(** A rule is active when [is_active] is set and [expires_at] is in the
    future: the filter of [checkDefenseRule] and of [/reanalyze/rules]. *)
Definition activeAt (now : Z) (r : StoredRule) : bool :=
  is_active (rule r) && (now <? expires_at (rule r))%Z.

(** What the database does with the two requests of one call: the
    request throws, reports an [error], or is served.  A served select
    carries the matching rows as [data]. *)
Inductive select_outcome := SelectThrows | SelectError | SelectAnswers.
Inductive insert_outcome := InsertOk | InsertError | InsertThrows.

Record db_env := {
  on_select : select_outcome;
  on_insert : insert_outcome;
  db_clock : Z
}.

(** How the promise of the async function settles. *)
Inductive completion := Returns (b : bool) | Rejects.

Record outcome := {
  result : completion;
  tracker : gmap string (list Z);
  store : list StoredRule;
  insert_attempt : option DefenseRule
}.

Section WithDateParser.

Variable date_parse : string → option Z.

(** The loop over [timeFields]: the first truthy field that parses. *)
Fixpoint firstParsed (timeFields : list JS.value) : option Z :=
  match timeFields with
  | [] => None
  | timeStr :: rest =>
      if JS.truthy timeStr then
        match JS.getTime date_parse timeStr with
        | Some parsedTime => Some parsedTime
        | None => firstParsed rest
        end
      else firstParsed rest
  end.

Definition flowTime (row : JS.object) : option Z :=
  firstParsed [JS.get row "timestamp"; JS.get row "created_at";
               JS.get row "Timestamp"; JS.get row "createdAt"].

(** [row.src_ip || row.dst_ip], refused when falsy or ['UNKNOWN']. *)
Definition sourceKey (row : JS.object) : option string :=
  let ipAddress := JS.or (JS.get row "src_ip") (JS.get row "dst_ip") in
  if negb (JS.truthy ipAddress) || JS.strict_eq ipAddress (JS.Str "UNKNOWN")
  then None
  else Some (JS.toPropertyKey ipAddress).

(** The predicate of the [filter] of step 2. *)
Definition inWindow (flowTime timestamp : Z) : bool :=
  (flowTime - timestamp <=? THRESHOLD_WINDOW_MS)%Z
  && (flowTime - timestamp >=? 0)%Z.

(** The same as a relation on arrival order: [b] arrives after [a] with
    [a] inside the window of [b]. *)
Definition inWindowOf (a b : Z) : Prop := (0 ≤ b - a ≤ THRESHOLD_WINDOW_MS)%Z.

#[export] Instance inWindowOf_dec a b : Decision (inWindowOf a b).
Proof. unfold inWindowOf. apply _. Defined.

(** [RECENT_ATTACK_TRACKER[ipAddress]] finds a member inherited from
    [Object.prototype]: the tracker is a plain object, the key has no
    sequence of its own and names such a member.  The member is truthy,
    so the guard of step 2 stores no array, and it has no [filter]. *)
Definition findsInherited (tr : gmap string (list Z)) (ipAddress : string) : bool :=
  bool_decide (tr !! ipAddress = None) && JS.inherited ipAddress.

(** Step 2 for a key that finds no inherited member: the filtered
    sequence of the key (the empty array the guard has just stored when
    the key had none) with the new time pushed. *)
Definition recentDetections
    (tr : gmap string (list Z)) (ipAddress : string) (flowTime : Z) : list Z :=
  List.filter (inWindow flowTime) (default [] (tr !! ipAddress)) ++ [flowTime].

(** The record operation on such a key: the tracker after step 2 and
    the count. *)
Definition record
    (tr : gmap string (list Z)) (ipAddress : string) (flowTime : Z)
  : gmap string (list Z) * nat :=
  let recent := recentDetections tr ipAddress flowTime in
  (<[ipAddress := recent]> tr, length recent).

(** Step 2 as the call runs it.  [None] is the TypeError of calling
    [filter] on an inherited member; it is thrown before the tracker is
    written. *)
Definition aggregate
    (tr : gmap string (list Z)) (ipAddress : string) (flowTime : Z)
  : option (gmap string (list Z) * nat) :=
  if findsInherited tr ipAddress then None
  else Some (record tr ipAddress flowTime).

(** [.from('defense_rules').select('ip_address').eq('ip_address', ip).limit(1)] *)
Definition selectByIp (db : list StoredRule) (ipAddress : string) : list StoredRule :=
  take 1 (List.filter (λ r, String.eqb (ip_address (rule r)) ipAddress) db).

Definition skipped (tr : gmap string (list Z)) (db : list StoredRule) : outcome :=
  {| result := Returns false; tracker := tr; store := db; insert_attempt := None |}.

(** An exception outside every [try]: the promise is rejected. *)
Definition thrown (tr : gmap string (list Z)) (db : list StoredRule) : outcome :=
  {| result := Rejects; tracker := tr; store := db; insert_attempt := None |}.

Definition manageDefenseRules
    (env : db_env) (tr : gmap string (list Z)) (db : list StoredRule)
    (row : JS.object) (prediction : JS.value) (jobId : string)
    (currentTime : Z) : outcome :=
  let flowId := JS.or (JS.get row "flow_id") (JS.Str "N/A") in
  match sourceKey row, flowTime row with
  | Some ipAddress, Some flowTime =>
      match aggregate tr ipAddress flowTime with
      | None => thrown tr db
      | Some (tr1, count) =>
      if (THRESHOLD_COUNT <=? count)%nat then
        match on_select env with
        | SelectThrows => skipped tr1 db
        | SelectError => skipped tr1 db
        | SelectAnswers =>
            let existingRules := selectByIp db ipAddress in
            if (length existingRules =? 0)%nat then
              let ruleToInsert :=
                {| ip_address := ipAddress;
                   threat_type := prediction;
                   expires_at :=
                     (currentTime + RULE_EXPIRATION_MINUTES * 60 * 1000)%Z;
                   is_active := true;
                   analysis_id := jobId;
                   raw_flow_data :=
                     {| trigger_flow_id := flowId; threat_count := count |} |} in
              match on_insert env with
              | InsertOk =>
                  {| result := Returns true;
                     tracker := delete ipAddress tr1;
                     store := db ++ [{| created_at := db_clock env;
                                        rule := ruleToInsert |}];
                     insert_attempt := Some ruleToInsert |}
              | InsertError =>
                  {| result := Returns false; tracker := tr1; store := db;
                     insert_attempt := Some ruleToInsert |}
              | InsertThrows =>
                  {| result := Rejects; tracker := tr1; store := db;
                     insert_attempt := Some ruleToInsert |}
              end
            else skipped tr1 db
        end
      else skipped tr1 db
      end
  | _, _ => skipped tr db
  end.

(** The rules the store holds for a key, and whether one is active. *)
Definition rulesFor (db : list StoredRule) (ipAddress : string) : list StoredRule :=
  List.filter (λ r, String.eqb (ip_address (rule r)) ipAddress) db.

Definition hasActiveRule (now : Z) (db : list StoredRule) (ipAddress : string) : bool :=
  existsb (activeAt now) (rulesFor db ipAddress).

End WithDateParser.

End RuleEngine.

(** ** Sequences of rule evaluations

    The ingestion endpoints call [manageDefenseRules] once per malicious
    row and do not wait for it.  A call whose count stays below the
    threshold, or whose record step throws, finishes before the next
    one starts (it has no [await] on its path), so the calls compose
    one after the other.  The periodic sweep of the tracker is not part
    of a run. *)

Module Calls.

Import RuleEngine.

Record call := {
  c_env : db_env;
  c_row : JS.object;
  c_prediction : JS.value;
  c_jobId : string;
  c_now : Z
}.

Record run := {
  final_tracker : gmap string (list Z);
  final_store : list StoredRule;
  insert_attempts : list DefenseRule
}.

Section WithDateParser.

Variable date_parse : string → option Z.

Definition step (c : call) (tr : gmap string (list Z)) (db : list StoredRule) : outcome :=
  manageDefenseRules date_parse (c_env c) tr db
    (c_row c) (c_prediction c) (c_jobId c) (c_now c).

Fixpoint runCalls
    (calls : list call) (tr : gmap string (list Z)) (db : list StoredRule) : run :=
  match calls with
  | [] => {| final_tracker := tr; final_store := db; insert_attempts := [] |}
  | c :: rest =>
      let o := step c tr db in
      let r := runCalls rest (tracker o) (store o) in
      {| final_tracker := final_tracker r;
         final_store := final_store r;
         insert_attempts := option_list (insert_attempt o) ++ insert_attempts r |}
  end.

(** A call is an event of key [ip] at time [t]. *)
Definition eventOf (c : call) : option (string * Z) :=
  match sourceKey (c_row c), flowTime date_parse (c_row c) with
  | Some ip, Some t => Some (ip, t)
  | _, _ => None
  end.

End WithDateParser.

End Calls.

(** ** Batches and the prediction gateway *)

Module Batch.

(** [rows.slice(i, j)] for [i <= j]. *)
Definition slice {A} (rows : list A) (i j : nat) : list A :=
  take (j - i) (drop i rows).

(** [for (let i = 0; i < rows.length; i += BATCH_SIZE) { body }], the
    loop variable starting at [i]; [fuel] bounds the number of rounds. *)
Fixpoint forBatches {A S} (fuel : nat) (BATCH_SIZE : nat)
    (body : nat → list A → S → S) (rows : list A) (i : nat) (s : S) : S :=
  match fuel with
  | O => s
  | S fuel' =>
      if (i <? length rows)%nat then
        forBatches fuel' BATCH_SIZE body rows (i + BATCH_SIZE)
          (body i (slice rows i (i + BATCH_SIZE)) s)
      else s
  end.

(** What [axios.post(MODEL_API_URL_BATCH, batch)] gives: a rejected
    promise, or a body whose [predictions] may be missing. *)
Inductive gateway_reply :=
  | GatewayFails
  | GatewayReplies (predictions : option (list JS.value)).

(** [predictions[index] || 'Error'] *)
Definition labelAt (predictions : list JS.value) (index : nat) : JS.value :=
  JS.or (default JS.Undefined (predictions !! index)) (JS.Str "Error").

(** The gateway gave no usable label at [index]: the array is too
    short, or holds a falsy value there. *)
Definition noLabelAt (predictions : list JS.value) (index : nat) : Prop :=
  (length predictions ≤ index)%nat
  ∨ ∃ v, predictions !! index = Some v ∧ JS.truthy v = false.

End Batch.

(** ** The ingestion endpoints [/analyze/csv] and [/analyze/api] *)

Module Ingest.

Import Batch.

Definition BATCH_SIZE : nat := 100.
Definition DIAGNOSTIC_FORCE_ATTACK : bool := false.

(** An invocation [manageDefenseRules(supabase, row, prediction, jobId)]. *)
Record submission := {
  s_row : JS.object;
  s_prediction : JS.value;
  s_jobId : string
}.

(** The callback of [batch.map((row, index) => ...)]: the row with its
    prediction, and the rule evaluation it starts, if any. *)
Definition labelRow (predictions : list JS.value) (jobId : string)
    (index : nat) (row : JS.object) : JS.object * option submission :=
  let prediction := labelAt predictions index in
  let prediction :=
    if DIAGNOSTIC_FORCE_ATTACK && (index =? 0)%nat
    then JS.Str "Forced_DDoS_Test" else prediction in
  let rowWithPrediction :=
    <["analysis_id" := JS.Str jobId]> (<["prediction" := prediction]> row) in
  (rowWithPrediction,
   if JS.strict_ne prediction (JS.Str "benign")
      && JS.strict_ne prediction (JS.Str "Error")
   then Some {| s_row := row; s_prediction := prediction; s_jobId := jobId |}
   else None).

(** The callback of the [catch] branch. *)
Definition errorRow (jobId : string) (row : JS.object) : JS.object :=
  <["analysis_id" := JS.Str jobId]> (<["prediction" := JS.Str "Error"]> row).

(** [({ Timestamp, timestamp, ...rest }) => rest] of [/analyze/csv] and
    [({ created_at, ...rest }) => rest] of [/analyze/api]. *)
Definition stripCsv (row : JS.object) : JS.object :=
  delete "timestamp" (delete "Timestamp" row).

Definition stripApi (row : JS.object) : JS.object := delete "created_at" row.

Section WithGateway.

Variable gateway : nat → list JS.object → gateway_reply.

(** The body of the loop, which the two endpoints have word for word
    but for the fields they strip: the [try] with its [batch.map], and
    the [catch]. *)
Definition ingestBatch (strip : JS.object → JS.object)
    (jobId : string) (i : nat) (batch : list JS.object)
  : list (JS.object * option submission) :=
  let batchForModel := map strip batch in
  match gateway i batchForModel with
  | GatewayReplies (Some predictions) => imap (labelRow predictions jobId) batch
  | _ => map (λ row, (errorRow jobId row, None)) batch
  end.

Definition ingest (strip : JS.object → JS.object)
    (jobId : string) (rows : list JS.object)
  : list (JS.object * option submission) :=
  forBatches (length rows) BATCH_SIZE
    (λ i batch acc, acc ++ ingestBatch strip jobId i batch) rows 0 [].

(** The loop of [/analyze/csv]. *)
Definition analyzeCsv (jobId : string) (rows : list JS.object)
  : list (JS.object * option submission) :=
  ingest stripCsv jobId rows.

(** The loop of [/analyze/api]. *)
Definition analyzeApi (jobId : string) (rows : list JS.object)
  : list (JS.object * option submission) :=
  ingest stripApi jobId rows.

(** What the loop gives for the row at position [j], read off the reply
    to the batch that holds it. *)
Definition labelledAt (strip : JS.object → JS.object) (jobId : string)
    (rows : list JS.object) (j : nat) (row : JS.object)
  : JS.object * option submission :=
  let i := (j - j mod BATCH_SIZE)%nat in
  match gateway i (map strip (slice rows i (i + BATCH_SIZE))) with
  | GatewayReplies (Some predictions) =>
      labelRow predictions jobId (j mod BATCH_SIZE) row
  | _ => (errorRow jobId row, None)
  end.


Definition submissions (out : list (JS.object * option submission))
  : list submission := omap snd out.

End WithGateway.

End Ingest.

(** ** [transformBlockedData] *)

Module Transformer.

Definition upper_ascii (c : Ascii.ascii) : Ascii.ascii :=
  let n := nat_of_ascii c in
  if (97 <=? n)%nat && (n <=? 122)%nat then ascii_of_nat (n - 32) else c.

Fixpoint toUpperCase (s : string) : string :=
  match s with
  | EmptyString => EmptyString
  | String c r => String (upper_ascii c) (toUpperCase r)
  end.

(** [key.replace(/_cnt$/, '_count')] *)
Definition replaceCnt (key : string) : string :=
  let n := String.length key in
  if (4 <=? n)%nat && String.eqb (substring (n - 4) 4 key) "_cnt"
  then (substring 0 (n - 4) key +:+ "_count")
  else key.

Definition getKey (row : JS.object) (key : string) : JS.value :=
  JS.coalesce (JS.get row key)
    (JS.coalesce (JS.get row (replaceCnt key)) (JS.get row (toUpperCase key))).

(** A value of the accumulator of the [reduce]: a count (a number small
    enough for [+ 1] to be exact), or a text, which is what [+ 1] makes
    of a member inherited from [Object.prototype]. *)
Inductive tallied :=
  | Count (n : nat)
  | Text (s : string).

(** The accumulator is a plain object, kept as the list of its own
    properties in the order of their creation. *)
Fixpoint ownValue (k : string) (acc : list (string * tallied)) : option tallied :=
  match acc with
  | [] => None
  | (k', v) :: rest => if String.eqb k' k then Some v else ownValue k rest
  end.

(** [acc[k] = v] for a name other than [__proto__]. *)
Fixpoint assign (k : string) (v : tallied) (acc : list (string * tallied))
  : list (string * tallied) :=
  match acc with
  | [] => [(k, v)]
  | (k', v') :: rest =>
      if String.eqb k' k then (k', v) :: rest else (k', v') :: assign k v rest
  end.

(** [acc[k]]: the own property, else the inherited member of that
    name, here as its text. *)
Definition valueAt (k : string) (acc : list (string * tallied)) : option tallied :=
  match ownValue k acc with
  | Some v => Some v
  | None =>
      Text <$> (list_to_map (M := gmap string string) JS.prototypeMembers !! k)
  end.

(** [(found || 0) + 1]: a count grows by one; a text, truthy unless
    empty, gets ["1"] appended. *)
Definition plusOne (found : option tallied) : tallied :=
  match found with
  | Some (Count n) => Count (S n)
  | Some (Text s) => if String.eqb s "" then Count 1 else Text (s +:+ "1")
  | None => Count 1
  end.

(** [acc[k] = (acc[k] || 0) + 1].  Assigning a text to [__proto__]
    changes nothing. *)
Definition bump (k : string) (acc : list (string * tallied))
  : list (string * tallied) :=
  let value := plusOne (valueAt k acc) in
  if String.eqb k "__proto__" then acc else assign k value acc.

(** The value of a string of decimal digits after [acc]. *)
Fixpoint digitsValue (s : string) (acc : N) : option N :=
  match s with
  | EmptyString => Some acc
  | String c r =>
      let n := N_of_ascii c in
      if (48 <=? n)%N && (n <=? 57)%N
      then digitsValue r (acc * 10 + (n - 48))%N
      else None
  end.

(** An array index: the canonical decimal numeral of a number below
    [2^32 - 1]. *)
Definition arrayIndex (k : string) : option N :=
  match digitsValue k 0 with
  | Some n =>
      if bool_decide (pretty n = k) && (n <? 4294967295)%N then Some n
      else None
  | None => None
  end.

Fixpoint insertByIndex {A} (p : N * A) (l : list (N * A)) : list (N * A) :=
  match l with
  | [] => [p]
  | q :: rest =>
      if (p.1 <? q.1)%N then p :: l else q :: insertByIndex p rest
  end.

(** [Object.entries]: the properties whose names are array indices, by
    ascending index, then the others in the order of their creation. *)
Definition entries {A} (acc : list (string * A)) : list (string * A) :=
  (snd <$> foldr insertByIndex []
             (omap (λ e, (λ i, (i, e)) <$> arrayIndex e.1) acc))
  ++ List.filter (λ e, bool_decide (arrayIndex e.1 = None)) acc.

Record FlowView := {
  source : JS.value;
  dest : JS.value;
  port : JS.value;
  protocol : string;
  type : JS.value
}.

Record BlockedData := {
  blockedCount : nat;
  threatBreakdown : list (string * tallied);
  recentFlows : list FlowView
}.

Definition transformBlockedData (blockedRows : list JS.object) : BlockedData :=
  let threatBreakdown :=
    fold_left
      (λ acc row,
         let prediction :=
           JS.or (JS.get row "original_prediction")
             (JS.or (JS.get row "prediction") (JS.Str "Unknown Block")) in
         bump (JS.toPropertyKey prediction) acc)
      blockedRows [] in
  let recentFlows :=
    map (λ r,
           {| source := JS.or (getKey r "src_ip") (JS.Str "N/A");
              dest := JS.or (getKey r "dst_ip") (JS.Str "N/A");
              port := getKey r "dst_port";
              protocol :=
                if JS.strict_eq (getKey r "protocol") (JS.Num 6)
                then "TCP" else "UDP";
              type := JS.get r "prediction" |})
        (take 5 blockedRows) in
  {| blockedCount := length blockedRows;
     threatBreakdown := entries threatBreakdown;
     recentFlows := recentFlows |}.

End Transformer.

(** ** The endpoint [/reanalyze/rules] *)

Module Reanalysis.

Import Batch.

Definition BATCH_SIZE : nat := 100.

(** The value stored in [blockedIpMap] for an address. *)
Record RuleWindow := {
  w_created_at : Z;
  w_expires_at : Z
}.

(** [getAnalysisResultsByJobId]: the rows of the job.
    [analysis_results] lists the rows of the table in the order in
    which [.order('created_at', { ascending: true })] returns them, so
    the rows of the job come in that order; [None] is the [null]
    returned when the query reports an error. *)
Definition getAnalysisResultsByJobId
    (read_ok : bool) (analysis_results : list JS.object) (analysisId : JS.value)
  : option (list JS.object) :=
  if read_ok
  then Some (List.filter
               (λ row, JS.strict_eq (JS.get row "analysis_id") analysisId)
               analysis_results)
  else None.

(** Step 3: the rules with [is_active] and [expires_at > now];
    [None] is a [null] [data]. *)
Definition selectActiveRules
    (read_ok : bool) (now : Z) (defense_rules : list RuleEngine.StoredRule)
  : option (list RuleEngine.StoredRule) :=
  if read_ok then Some (List.filter (RuleEngine.activeAt now) defense_rules)
  else None.

Definition buildBlockedIpMap
    (activeRules : option (list RuleEngine.StoredRule)) : gmap string RuleWindow :=
  match activeRules with
  | Some rules =>
      fold_left
        (λ blockedIpMap r,
           <[RuleEngine.ip_address (RuleEngine.rule r) :=
               {| w_created_at := RuleEngine.created_at r;
                  w_expires_at := RuleEngine.expires_at (RuleEngine.rule r) |}]>
             blockedIpMap)
        rules ∅
  | None => ∅
  end.

(** Whether [blockedIpMap[key]] is truthy.  The map is a plain object.
    Besides the rule data stored under the key, the lookup finds the
    members inherited from [Object.prototype], which are truthy.  And
    [blockedIpMap['__proto__'] = data] stores nothing under that name:
    it makes [data] the prototype of the map, for which the entry of
    [buildBlockedIpMap] under ["__proto__"] stands; the lookup then
    finds the two numbers of [data] under their names. *)
Definition finds (blockedIpMap : gmap string RuleWindow) (key : string) : bool :=
  match blockedIpMap !! key with
  | Some _ => true
  | None =>
      JS.inherited key
      || match blockedIpMap !! "__proto__" with
         | Some data =>
             String.eqb key "created_at"
               && JS.truthy (JS.Num (w_created_at data))
             || String.eqb key "expires_at"
                  && JS.truthy (JS.Num (w_expires_at data))
         | None => false
         end
  end.

(** The names under which a lookup in [blockedIpMap] can find
    something that is not the data of a rule. *)
Definition memberNames : list string :=
  JS.prototypeNames ++ ["created_at"; "expires_at"].

(** [row.prediction ? row.prediction.toLowerCase() : 'error']; [None]
    is the TypeError of calling [toLowerCase] on a truthy non-string. *)
Definition originalPrediction (row : JS.object) : option string :=
  let prediction := JS.get row "prediction" in
  if JS.truthy prediction then
    match prediction with
    | JS.Str s => Some (JS.toLowerCase s)
    | _ => None
    end
  else Some "error".

Definition markBlocked (row : JS.object) : JS.object :=
  <["prediction" := JS.Str "Rule_Blocked_Historical"]> row.

(** [s] is [target] in some letter-casing: each letter as in [target]
    or in upper case. *)
Inductive casingOf : string → string → Prop :=
  | casing_nil : casingOf "" ""
  | casing_same c s t : casingOf s t → casingOf (String c s) (String c t)
  | casing_upper c s t :
      casingOf s t → casingOf (String (Transformer.upper_ascii c) s) (String c t).

(** An active rule exists for the address. *)
Definition activeRuleOn
    (now : Z) (defense_rules : list RuleEngine.StoredRule) (ip : string) : Prop :=
  ∃ r, r ∈ defense_rules ∧ RuleEngine.activeAt now r = true
       ∧ RuleEngine.ip_address (RuleEngine.rule r) = ip.

Section WithCollaborators.

Variable date_parse : string → option Z.
Variable gateway : nat → list JS.object → gateway_reply.

(** [transformPredictionData] builds the charts of the dashboard; it is
    taken as given, [None] standing for an exception thrown by it. *)
Variable Dashboard : Type.
Variable transformPredictionData : list JS.object → option Dashboard.

(** The test of step 4 for one row, the values of the lookups read as
    [||] and [&&] read them: by their truthiness. *)
Definition isBlockedByPolicy
    (blockedIpMap : gmap string RuleWindow) (row : JS.object) : option bool :=
  let historicalFlowTime := JS.getTime date_parse (JS.get row "created_at") in
  match originalPrediction row with
  | None => None
  | Some originalPrediction =>
      let srcIpRule := finds blockedIpMap (JS.toPropertyKey (JS.get row "src_ip")) in
      let dstIpRule := finds blockedIpMap (JS.toPropertyKey (JS.get row "dst_ip")) in
      let ruleData := srcIpRule || dstIpRule in
      let ruleWasActiveAtFlowTime := true in
      Some (ruleData && ruleWasActiveAtFlowTime
            && negb (String.eqb originalPrediction "benign")
            && negb (String.eqb originalPrediction "error"))
  end.

(** The [forEach] of step 4 on the two arrays; [None] when a row throws. *)
Fixpoint filterRows
    (blockedIpMap : gmap string RuleWindow) (historicalResults : list JS.object)
    (flowsToReanalyze blockedFlows : list JS.object)
  : option (list JS.object * list JS.object) :=
  match historicalResults with
  | [] => Some (flowsToReanalyze, blockedFlows)
  | row :: rest =>
      match isBlockedByPolicy blockedIpMap row with
      | None => None
      | Some true =>
          filterRows blockedIpMap rest flowsToReanalyze
            (blockedFlows ++ [markBlocked row])
      | Some false =>
          filterRows blockedIpMap rest (flowsToReanalyze ++ [row]) blockedFlows
      end
  end.

(** Whether step 4 puts the row in [blockedFlows]. *)
Definition blocks (blockedIpMap : gmap string RuleWindow) (row : JS.object) : bool :=
  bool_decide (isBlockedByPolicy blockedIpMap row = Some true).

(** The two callbacks of step 5. *)
Definition rePredictRow (predictions : list JS.value)
    (index : nat) (row : JS.object) : JS.object :=
  <["prediction" := labelAt predictions index]>
    (<["original_prediction" := JS.get row "prediction"]> row).

Definition keepRow (row : JS.object) : JS.object :=
  <["prediction" := JS.get row "prediction"]>
    (<["original_prediction" := JS.get row "prediction"]> row).

(** [({ prediction, analysis_id, ...rest }) => rest] *)
Definition stripLabels (row : JS.object) : JS.object :=
  delete "analysis_id" (delete "prediction" row).

(** The body of the loop of step 5 for the batch starting at [i]. *)
Definition rePredictBatch (i : nat) (batch : list JS.object) : list JS.object :=
  let batchForModel := map stripLabels batch in
  match gateway i batchForModel with
  | GatewayReplies (Some predictions) => imap (rePredictRow predictions) batch
  | _ => map keepRow batch
  end.

(** What the loop gives for the row at position [j], read off the reply
    to the batch that holds it. *)
Definition rePredictedAt (flows : list JS.object) (j : nat) (row : JS.object)
  : JS.object :=
  let i := (j - j mod BATCH_SIZE)%nat in
  match gateway i (map stripLabels (slice flows i (i + BATCH_SIZE))) with
  | GatewayReplies (Some predictions) =>
      rePredictRow predictions (j mod BATCH_SIZE) row
  | _ => keepRow row
  end.

(** The gateway call of the batch starting at [i] fails: the promise is
    rejected, or the body has no [predictions]. *)
Definition batchFails (flows : list JS.object) (i : nat) : Prop :=
  match gateway i (map stripLabels (slice flows i (i + BATCH_SIZE))) with
  | GatewayReplies (Some _) => False
  | _ => True
  end.

Definition rePredict (flowsToReanalyze : list JS.object) : list JS.object :=
  forBatches (length flowsToReanalyze) BATCH_SIZE
    (λ i batch rePredictionResults, rePredictionResults ++ rePredictBatch i batch)
    flowsToReanalyze 0 [].

Record report := {
  finalDashboardData : Dashboard;
  r_analysis_id : JS.value;
  original_flow_count : nat;
  reanalyzed_flow_count : nat;
  blockedData : Transformer.BlockedData
}.

Inductive response :=
  | BadRequest
  | NotFound (analysis_id : JS.value)
  | AllFiltered (analysis_id : JS.value)
  | Reanalyzed (body : report)
  | ServerError.

(** What the request finds: the two tables, whether each read works,
    and the clock. *)
Record world := {
  analysis_results : list JS.object;
  flows_read_ok : bool;
  defense_rules : list RuleEngine.StoredRule;
  rules_read_ok : bool;
  now : Z
}.

Definition reanalyzeRules (w : world) (analysis_id : JS.value) : response :=
  if negb (JS.truthy analysis_id) then BadRequest
  else
    match getAnalysisResultsByJobId (flows_read_ok w) (analysis_results w) analysis_id with
    | None => NotFound analysis_id
    | Some [] => NotFound analysis_id
    | Some historicalResults =>
        let activeRules :=
          selectActiveRules (rules_read_ok w) (now w) (defense_rules w) in
        let blockedIpMap := buildBlockedIpMap activeRules in
        match filterRows blockedIpMap historicalResults [] [] with
        | None => ServerError
        | Some (flowsToReanalyze, blockedFlows) =>
            if (length flowsToReanalyze =? 0)%nat then AllFiltered analysis_id
            else
              let rePredictionResults := rePredict flowsToReanalyze in
              match transformPredictionData rePredictionResults with
              | None => ServerError
              | Some finalDashboardData =>
                  Reanalyzed
                    {| finalDashboardData := finalDashboardData;
                       r_analysis_id := analysis_id;
                       original_flow_count := length historicalResults;
                       reanalyzed_flow_count := length rePredictionResults;
                       blockedData :=
                         Transformer.transformBlockedData blockedFlows |}
              end
        end
    end.

End WithCollaborators.

Arguments finalDashboardData {Dashboard} r.
Arguments r_analysis_id {Dashboard} r.
Arguments original_flow_count {Dashboard} r.
Arguments reanalyzed_flow_count {Dashboard} r.
Arguments blockedData {Dashboard} r.
Arguments BadRequest {Dashboard}.
Arguments NotFound {Dashboard} analysis_id.
Arguments AllFiltered {Dashboard} analysis_id.
Arguments Reanalyzed {Dashboard} body.
Arguments ServerError {Dashboard}.

End Reanalysis.

(** ** The periodic sweep of the tracker *)

Module Sweep.

Import RuleEngine.

(** The predicate of the [filter] of the timer callback. *)
Definition fresh (currentTime timestamp : Z) : bool :=
  (currentTime - timestamp <=? THRESHOLD_WINDOW_MS)%Z.

(** The callback of [setInterval]: every key keeps its fresh timestamps
    and is deleted when none is left.  The file registers the same
    callback twice. *)
Definition sweep (currentTime : Z) (tr : gmap string (list Z))
  : gmap string (list Z) :=
  omap (λ timestamps,
          let kept := List.filter (fresh currentTime) timestamps in
          if (length kept =? 0)%nat then None else Some kept)
       tr.

End Sweep.

(** ** Evidence of a row *)

Module Evidence.

(** The fields [manageDefenseRules] tries for the time, in order. *)
Definition timeFieldNames : list string :=
  ["timestamp"; "created_at"; "Timestamp"; "createdAt"].

(** A field value that gives the time: truthy, and a valid date. *)
Definition usableTime (date_parse : string → option Z) (v : JS.value) : option Z :=
  if JS.truthy v then JS.getTime date_parse v else None.

(** The call is about the key [ip]. *)
Definition concerns (ip : string) (c : Calls.call) : bool :=
  match RuleEngine.sourceKey (Calls.c_row c) with
  | Some k => String.eqb k ip
  | None => false
  end.

Section WithDateParser.

Variable date_parse : string → option Z.

(** The count the call records: [None] when its row gives no key or no
    time, or when the record step throws. *)
Definition countOf (c : Calls.call) (tr : gmap string (list Z)) : option nat :=
  match Calls.eventOf date_parse c with
  | Some (ip, t) => snd <$> RuleEngine.aggregate tr ip t
  | None => None
  end.

(** The tracker after a call that does not reach the threshold. *)
Definition after (c : Calls.call) (tr : gmap string (list Z))
  : gmap string (list Z) :=
  match Calls.eventOf date_parse c with
  | Some (ip, t) =>
      match RuleEngine.aggregate tr ip t with
      | Some (tr1, _) => tr1
      | None => tr
      end
  | None => tr
  end.

(** Every count recorded during the run stays below the threshold. *)
Fixpoint staysBelow (calls : list Calls.call) (tr : gmap string (list Z)) : bool :=
  match calls with
  | [] => true
  | c :: rest =>
      match countOf c tr with
      | Some count => (count <? RuleEngine.THRESHOLD_COUNT)%nat
      | None => true
      end
      && staysBelow rest (after c tr)
  end.

End WithDateParser.

End Evidence.

(** ** [db-functions.js]: column names, saving results, rule lookup *)

Module DbFunctions.

Import RuleEngine.

Definition COLUMN_DB_MAP : list (string * string) :=
  [ ("total_fwd_packets", "tot_fwd_pkts");
    ("total_backward_packets", "tot_bwd_pkts");
    ("total_length_of_fwd_packets", "totlen_fwd_pkts");
    ("total_length_of_bwd_packets", "totlen_bwd_pkts");
    ("fwd_packet_length_max", "fwd_pkt_len_max");
    ("fwd_packet_length_min", "fwd_pkt_len_min");
    ("fwd_packet_length_mean", "fwd_pkt_len_mean");
    ("fwd_packet_length_std", "fwd_pkt_len_std");
    ("bwd_packet_length_max", "bwd_pkt_len_max");
    ("bwd_packet_length_min", "bwd_pkt_len_min");
    ("bwd_packet_length_mean", "bwd_pkt_len_mean");
    ("bwd_packet_length_std", "bwd_pkt_len_std");
    ("flow_bytes_s", "flow_byts_s");
    ("flow_pkts_s", "flow_pkts_s");
    ("fwd_pkts_s", "fwd_pkts_s");
    ("bwd_pkts_s", "bwd_pkts_s");
    ("fwd_iat_total", "fwd_iat_tot");
    ("bwd_iat_total", "bwd_iat_tot");
    ("fwd_header_length", "fwd_header_len");
    ("bwd_header_length", "bwd_header_len");
    ("fin_flag_count", "fin_flag_cnt");
    ("syn_flag_count", "syn_flag_cnt");
    ("rst_flag_count", "rst_flag_cnt");
    ("psh_flag_count", "psh_flag_cnt");
    ("ack_flag_count", "ack_flag_cnt");
    ("urg_flag_count", "urg_flag_cnt");
    ("min_packet_length", "pkt_len_min");
    ("max_packet_length", "pkt_len_max");
    ("packet_length_mean", "pkt_len_mean");
    ("packet_length_std", "pkt_len_std");
    ("packet_length_variance", "pkt_len_var");
    ("average_packet_size", "pkt_size_avg");
    ("fwd_seg_size_avg", "fwd_seg_size_avg");
    ("bwd_seg_size_avg", "bwd_seg_size_avg");
    ("fwd_avg_bytes_bulk", "fwd_byts_b_avg");
    ("fwd_avg_packets_bulk", "fwd_pkts_b_avg");
    ("fwd_avg_bulk_rate", "fwd_blk_rate_avg");
    ("bwd_avg_bytes_bulk", "bwd_byts_b_avg");
    ("bwd_avg_packets_bulk", "bwd_pkts_b_avg");
    ("bwd_avg_bulk_rate", "bwd_blk_rate_avg");
    ("subflow_fwd_pkts", "subflow_fwd_pkts");
    ("subflow_fwd_byts", "subflow_fwd_byts");
    ("subflow_bwd_pkts", "subflow_bwd_pkts");
    ("subflow_bwd_byts", "subflow_bwd_byts");
    ("init_fwd_win_byts", "init_fwd_win_byts");
    ("init_bwd_win_byts", "init_bwd_win_byts");
    ("fwd_act_data_pkts", "fwd_act_data_pkts");
    ("fwd_seg_size_min", "fwd_seg_size_min");
    ("cwe_flag_count", "cwe_flag_count");
    ("ece_flag_cnt", "ece_flag_cnt");
    ("down_up_ratio", "down_up_ratio") ].

(** [COLUMN_DB_MAP[key] || key], as the name under which
    [mappedRow[dbColumnName]] stores.  The table is an object literal: a
    key that it does not list finds the member of that name inherited
    from [Object.prototype], when there is one; the member is truthy
    and is used as property key through its [String]. *)
Definition dbColumnName (key : string) : string :=
  match list_to_map (M := gmap string string) COLUMN_DB_MAP !! key with
  | Some column => if String.eqb column "" then key else column
  | None =>
      match list_to_map (M := gmap string string) JS.prototypeMembers !! key with
      | Some text => text
      | None => key
      end
  end.

(** What a lookup in [COLUMN_DB_MAP] can find: its entries and the
    inherited members. *)
Definition lookupTable : list (string * string) :=
  COLUMN_DB_MAP ++ JS.prototypeMembers.

Arguments dbColumnName : simpl never.

(** The [for (const key in row)] loop of [saveAnalysisResults], the keys
    of the row taken in the order the engine enumerates them. *)
Definition mappedRowFrom (keys : list string) (row : JS.object) : JS.object :=
  fold_left (λ mappedRow key, <[dbColumnName key := JS.get row key]> mappedRow)
            keys ∅.


Section WithOwnKeys.

(** The own property names of an object, as [for ... in] yields them. *)
Variable ownKeys : JS.object → list string.

(** The callback of [predictedRows.map] on a row whose
    [hasOwnProperty] is the inherited one. *)
Definition mappedRow (row : JS.object) : JS.object :=
  mappedRowFrom (ownKeys row) row.


End WithOwnKeys.

(** [ownKeys] enumerates the properties of [row], each once. *)
Definition enumerates (ownKeys : JS.object → list string) (row : JS.object) : Prop :=
  NoDup (ownKeys row) ∧ ∀ k, k ∈ ownKeys row ↔ is_Some (row !! k).

(** The row does not hold a column both under its long name and under
    its database name. *)
Definition noShadowedColumn (row : JS.object) : Prop :=
  ∀ k, is_Some (row !! k) → dbColumnName k ≠ k → row !! dbColumnName k = None.

(** [column] is neither a long name nor a database name of the table,
    nor the name or the text of an inherited member. *)
Definition outsideTable (column : string) : Prop :=
  (column ∉ (fst <$> lookupTable)) ∧ (column ∉ (snd <$> lookupTable)).

(** [checkDefenseRule]: whether the address is blocked now. *)
Definition checkDefenseRule (read_ok : bool) (now : Z)
    (defense_rules : list StoredRule) (ipAddress : JS.value) : bool :=
  if negb (JS.truthy ipAddress) || JS.strict_eq ipAddress (JS.Str "UNKNOWN")
  then false
  else if read_ok then
    let data :=
      take 1 (List.filter
                (λ r, String.eqb (ip_address (rule r)) (JS.toPropertyKey ipAddress)
                      && is_active (rule r)
                      && (now <? expires_at (rule r))%Z)
                defense_rules) in
    (0 <? length data)%nat
  else false.

End DbFunctions.

(** ** Replies of the gateway *)

Module Replies.

Import Batch.

(** The reply sends the batch to the [catch] branch: the promise is
    rejected, or the body has no [predictions]. *)
Definition unusable (reply : gateway_reply) : Prop :=
  match reply with
  | GatewayReplies (Some _) => False
  | _ => True
  end.

(** The label is one that starts a rule evaluation. *)
Definition malicious (prediction : JS.value) : bool :=
  JS.strict_ne prediction (JS.Str "benign")
  && JS.strict_ne prediction (JS.Str "Error").

End Replies.

(** ** Reading a breakdown *)

Module Breakdown.

(** The name under which [transformBlockedData] counts a row. *)
Definition blockedLabel (row : JS.object) : string :=
  JS.toPropertyKey
    (JS.or (JS.get row "original_prediction")
       (JS.or (JS.get row "prediction") (JS.Str "Unknown Block"))).

(** The number of rows counted under a name. *)
Definition labelled (name : string) (rows : list JS.object) : nat :=
  length (List.filter (λ row, String.eqb (blockedLabel row) name) rows).

End Breakdown.

(** ** The endpoint [/ingest/batch] *)

Module IngestBatch.

Import Batch.

Definition BATCH_SIZE : nat := 100.

Inductive response :=
  | BadRequest
  | Created (records : nat)
  | ServerError.

(** [({ timestamp, ...rest }) => rest] *)
Definition stripTimestamp (row : JS.object) : JS.object := delete "timestamp" row.

Section WithGateway.

Variable gateway : nat → list JS.object → gateway_reply.

(** The body of the loop for the batch starting at [i]. *)
Definition labelBatch (i : nat) (batch : list JS.object) : list JS.object :=
  let batchForModel := map stripTimestamp batch in
  match gateway i batchForModel with
  | GatewayReplies (Some predictions) =>
      imap (λ index row, <["prediction" := labelAt predictions index]> row) batch
  | _ => map (λ row, <["prediction" := JS.Str "Error"]> row) batch
  end.

Definition allDataToInsert (rows : list JS.object) : list JS.object :=
  forBatches (length rows) BATCH_SIZE
    (λ i batch acc, acc ++ labelBatch i batch) rows 0 [].


(** The handler: the answer and the table [network_flows] afterwards.
    [None] is a body that is not an array. *)
Definition ingestBatch (insert_ok : bool) (network_flows : list JS.object)
    (body : option (list JS.object)) : response * list JS.object :=
  match body with
  | None => (BadRequest, network_flows)
  | Some [] => (BadRequest, network_flows)
  | Some rows =>
      let all := allDataToInsert rows in
      if insert_ok then (Created (length all), network_flows ++ all)
      else (ServerError, network_flows)
  end.

End WithGateway.

End IngestBatch.

(** ** The client of [/reanalyze/rules]: [reanalyzeOnBackend] *)

Module Client.

Import Reanalysis.

(** The state [flowCounts]; the percentage is a string of [toFixed], or
    the number 0. *)
Record flowCounts := {
  original : Z;
  reanalyzed : Z;
  blocked : Z;
  blockedPercentage : JS.value
}.

Inductive view (Dashboard : Type) :=
  | Failed
  | Shown (charts : option Dashboard)
          (blockedData : option Transformer.BlockedData)
          (counts : flowCounts).

Arguments Failed {Dashboard}.
Arguments Shown {Dashboard} charts blockedData counts.

Section WithFormat.

(** [((blocked / original) * 100).toFixed(1)] *)
Variable percentage : Z → Z → string.

Definition countsOf (originalCount reanalyzedCount : Z) : flowCounts :=
  let blockedCount := (originalCount - reanalyzedCount)%Z in
  {| original := originalCount;
     reanalyzed := reanalyzedCount;
     blocked := blockedCount;
     blockedPercentage :=
       if (0 <? originalCount)%Z
       then JS.Str (percentage blockedCount originalCount)
       else JS.Num 0 |}.

(** What the component shows for an answer of the endpoint: an error for
    a status other than 2xx, otherwise the fields of the payload, a
    missing count read as 0 and a missing object as [null]. *)
Definition reanalyzeOnBackend {Dashboard} (answer : response Dashboard)
  : view Dashboard :=
  match answer with
  | BadRequest | NotFound _ | ServerError => Failed
  | AllFiltered _ => Shown None None (countsOf 0 0)
  | Reanalyzed body =>
      Shown (Some (finalDashboardData body)) (Some (blockedData body))
            (countsOf (Z.of_nat (original_flow_count body))
                      (Z.of_nat (reanalyzed_flow_count body)))
  end.

End WithFormat.

End Client.

(** ** Sample data *)

Module Samples.

Import RuleEngine Calls Batch Reanalysis.

Definition noDates : string → option Z := λ _, None.

Definition attacker : string := "10.0.0.5".

(** A malicious flow of the attacker, stamped [t]. *)
Definition flowAt (t : Z) : JS.object :=
  list_to_map [("src_ip", JS.Str attacker); ("flow_id", JS.Str "f-17");
               ("timestamp", JS.Num t)].

Definition answering : db_env :=
  {| on_select := SelectAnswers; on_insert := InsertOk; db_clock := 2000 |}.

Definition refusing : db_env :=
  {| on_select := SelectAnswers; on_insert := InsertError; db_clock := 2000 |}.

Definition unreachable : db_env :=
  {| on_select := SelectError; on_insert := InsertOk; db_clock := 2000 |}.

(** One detection short of the threshold, all at instant 1000. *)
Definition nearThreshold : gmap string (list Z) :=
  {[ attacker := replicate 49 1000%Z ]}.

(** A rule of the attacker that expires at instant 3600000. *)
Definition oldRule : StoredRule :=
  {| created_at := 0;
     rule := {| ip_address := attacker; threat_type := JS.Str "DDoS";
                expires_at := 3600000; is_active := true;
                analysis_id := "job-0";
                raw_flow_data := {| trigger_flow_id := JS.Str "f-0";
                                    threat_count := 50 |} |} |}.

Definition callAt (t : Z) : call :=
  {| c_env := answering; c_row := flowAt t; c_prediction := JS.Str "DDoS";
     c_jobId := "job-1"; c_now := t |}.

(** Events 100 ms apart, from instant 1 on. *)
Definition burstTimes (n : nat) : list Z :=
  map (λ k, Z.of_nat k * 100 + 1)%Z (seq 0 n).

Definition burst (n : nat) : list call := map callAt (burstTimes n).

(** Stored flows of job-1. *)
Definition storedFlow (ip label : string) : JS.object :=
  list_to_map [("analysis_id", JS.Str "job-1"); ("src_ip", JS.Str ip);
               ("dst_ip", JS.Str "192.168.1.1"); ("prediction", JS.Str label);
               ("created_at", JS.Str "2025-10-01T10:00:00Z")].

Definition attackFlow : JS.object := storedFlow attacker "DDoS".
Definition benignFlow : JS.object := storedFlow attacker "Benign".
Definition otherFlow : JS.object := storedFlow "10.0.0.9" "PortScan".
Definition unlabelledFlow : JS.object :=
  <["prediction" := JS.Null]> (storedFlow attacker "DDoS").

Definition gatewayDown : nat → list JS.object → gateway_reply :=
  λ _ _, GatewayFails.

(** A gateway that answers one label, and so too few for a longer batch. *)
Definition gatewayShort : nat → list JS.object → gateway_reply :=
  λ _ _, GatewayReplies (Some [JS.Str "DDoS"]).

(** A stand-in for the dashboard summary: the number of rows. *)
Definition countRows : list JS.object → option nat := λ rows, Some (length rows).

Definition worldOf (flows : list JS.object) : world :=
  {| analysis_results := flows; flows_read_ok := true;
     defense_rules := [oldRule]; rules_read_ok := true; now := 1000 |}.

(** The same store, read after the rule has expired. *)
Definition laterWorldOf (flows : list JS.object) : world :=
  {| analysis_results := flows; flows_read_ok := true;
     defense_rules := [oldRule]; rules_read_ok := true; now := 4000000 |}.

(** A summary that cannot be built. *)
Definition noSummary : list JS.object → option nat := λ _, None.

(** Detections of the attacker at three instants. *)
Definition threeDetections : gmap string (list Z) :=
  {[ attacker := [1000; 5000; 14000]%Z ]}.

(** A malicious flow of another source, stamped [t]. *)
Definition otherCallAt (t : Z) : call :=
  {| c_env := answering;
     c_row := <["src_ip" := JS.Str "10.0.0.9"]> (flowAt t);
     c_prediction := JS.Str "PortScan"; c_jobId := "job-1"; c_now := t |}.

(** A stand-in for [toFixed]; the sample answers below do not reach it. *)
Definition noFormat : Z → Z → string := λ _ _, "0.0".

(** Two sources with thirty events each, taking turns. *)
Definition twoSources : list call :=
  flat_map (λ t, [callAt t; otherCallAt t]) (burstTimes 30).

(** The property names of a row, in the order of the map. *)
Definition keysOf (row : JS.object) : list string := fst <$> map_to_list row.

(** A labelled row of an upload, one column under its long name. *)
Definition uploadedRow : JS.object :=
  list_to_map [("analysis_id", JS.Str "job-1"); ("src_ip", JS.Str attacker);
               ("total_fwd_packets", JS.Num 12); ("prediction", JS.Str "DDoS")].

End Samples.

(** * Properties *)

(** ** The tracker and the rule engine *)

Section RuleEngineFacts.

Import RuleEngine.

Variable date_parse : string → option Z.

Lemma inWindow_spec (flowTime t : Z) :
  inWindow flowTime t = true ↔ (0 ≤ flowTime - t ≤ THRESHOLD_WINDOW_MS)%Z.
Proof. unfold inWindow. rewrite andb_true_iff. lia. Qed.

Lemma selectByIp_nil (db : list StoredRule) (ip : string) :
  (length (selectByIp db ip) =? 0)%nat = true ↔ rulesFor db ip = [].
Proof.
  unfold selectByIp, rulesFor. rewrite Nat.eqb_eq.
  destruct (List.filter _ db) as [|r l]; simpl; split; intros H; try done.
Qed.

Lemma rulesFor_nil (db : list StoredRule) (ip : string) :
  rulesFor db ip = [] ↔ ∀ r, r ∈ db → ip_address (rule r) ≠ ip.
Proof.
  unfold rulesFor. induction db as [|r db IH]; simpl.
  - split; [intros _ r Hr; inversion Hr | done].
  - destruct (String.eqb_spec (ip_address (rule r)) ip) as [He|Hne].
    + split; [done|]. intros H. exfalso. apply (H r); [left | done].
    + rewrite IH. split.
      * intros H r' Hr'. apply elem_of_cons in Hr' as [->|Hr']; auto.
      * intros H r' Hr'. apply H. by right.
Qed.

Lemma inherited_spec (k : string) :
  JS.inherited k = true ↔ k ∈ JS.prototypeNames.
Proof. unfold JS.inherited. apply bool_decide_eq_true. Qed.

Lemma findsInherited_spec (tr : gmap string (list Z)) (ip : string) :
  findsInherited tr ip = true ↔ tr !! ip = None ∧ JS.inherited ip = true.
Proof.
  unfold findsInherited. rewrite andb_true_iff, bool_decide_eq_true. done.
Qed.

Lemma findsInherited_false (tr : gmap string (list Z)) (ip : string) :
  findsInherited tr ip = false ↔ is_Some (tr !! ip) ∨ JS.inherited ip = false.
Proof.
  unfold findsInherited. rewrite andb_false_iff, bool_decide_eq_false.
  by rewrite <- not_eq_None_Some.
Qed.

Lemma aggregate_Some (tr : gmap string (list Z)) (ip : string) (ft : Z) :
  findsInherited tr ip = false →
  aggregate tr ip ft = Some (record tr ip ft).
Proof. intros H. unfold aggregate. by rewrite H. Qed.

Lemma aggregate_None (tr : gmap string (list Z)) (ip : string) (ft : Z) :
  findsInherited tr ip = true → aggregate tr ip ft = None.
Proof. intros H. unfold aggregate. by rewrite H. Qed.

(** A key whose lookup finds an inherited member: the call throws
    before it writes anything. *)
Lemma manage_thrown (env : db_env) tr db row prediction jobId now ip ft :
  sourceKey row = Some ip →
  flowTime date_parse row = Some ft →
  findsInherited tr ip = true →
  manageDefenseRules date_parse env tr db row prediction jobId now
  = thrown tr db.
Proof.
  intros Hk Ht Hf. unfold manageDefenseRules. rewrite Hk, Ht.
  by rewrite aggregate_None.
Qed.

(** The call on a row whose key and time resolve, the threshold not
    being reached: only the record step happens. *)
Lemma manage_below (env : db_env) tr db row prediction jobId now ip ft :
  sourceKey row = Some ip →
  flowTime date_parse row = Some ft →
  findsInherited tr ip = false →
  (length (recentDetections tr ip ft) < THRESHOLD_COUNT)%nat →
  manageDefenseRules date_parse env tr db row prediction jobId now
  = skipped (<[ip := recentDetections tr ip ft]> tr) db.
Proof.
  intros Hk Ht Hf Hlt. unfold manageDefenseRules. rewrite Hk, Ht.
  rewrite aggregate_Some by done. unfold record. cbv beta iota zeta.
  destruct (Nat.leb_spec THRESHOLD_COUNT (length (recentDetections tr ip ft)));
    [lia | done].
Qed.

(** A count that reaches the threshold comes from a sequence of the
    key's own. *)
Lemma reached_own (tr : gmap string (list Z)) (ip : string) (ft : Z) :
  (THRESHOLD_COUNT ≤ length (recentDetections tr ip ft))%nat →
  findsInherited tr ip = false.
Proof.
  intros Hge. apply findsInherited_false. left.
  destruct (tr !! ip) as [l|] eqn:E; [by eexists|].
  unfold recentDetections in Hge. rewrite E in Hge. simpl in Hge.
  unfold THRESHOLD_COUNT in Hge. lia.
Qed.

(** The call on a row whose key and time resolve, the threshold being
    reached, by what the database does. *)
Lemma manage_reached (env : db_env) tr db row prediction jobId now ip ft :
  sourceKey row = Some ip →
  flowTime date_parse row = Some ft →
  (THRESHOLD_COUNT ≤ length (recentDetections tr ip ft))%nat →
  let recent := recentDetections tr ip ft in
  let tr1 := <[ip := recent]> tr in
  let ruleToInsert :=
    {| ip_address := ip; threat_type := prediction;
       expires_at := (now + RULE_EXPIRATION_MINUTES * 60 * 1000)%Z;
       is_active := true; analysis_id := jobId;
       raw_flow_data :=
         {| trigger_flow_id := JS.or (JS.get row "flow_id") (JS.Str "N/A");
            threat_count := length recent |} |} in
  manageDefenseRules date_parse env tr db row prediction jobId now
  = match on_select env with
    | SelectAnswers =>
        match rulesFor db ip with
        | [] =>
            match on_insert env with
            | InsertOk =>
                {| result := Returns true; tracker := delete ip tr1;
                   store := db ++ [{| created_at := db_clock env;
                                      rule := ruleToInsert |}];
                   insert_attempt := Some ruleToInsert |}
            | InsertError =>
                {| result := Returns false; tracker := tr1; store := db;
                   insert_attempt := Some ruleToInsert |}
            | InsertThrows =>
                {| result := Rejects; tracker := tr1; store := db;
                   insert_attempt := Some ruleToInsert |}
            end
        | _ :: _ => skipped tr1 db
        end
    | _ => skipped tr1 db
    end.
Proof.
  intros Hk Ht Hge. simpl. unfold manageDefenseRules. rewrite Hk, Ht.
  rewrite aggregate_Some by (by apply (reached_own tr ip ft)).
  unfold record. cbv beta iota zeta.
  destruct (Nat.leb_spec THRESHOLD_COUNT (length (recentDetections tr ip ft)));
    [|lia].
  destruct (on_select env); try done.
  destruct (length (selectByIp db ip) =? 0)%nat eqn:E.
  - apply selectByIp_nil in E. rewrite E. by destruct (on_insert env).
  - destruct (rulesFor db ip) eqn:E'; [|done].
    apply selectByIp_nil in E'. congruence.
Qed.

(** C7. The record operation of a call whose key and time resolve.
    It throws exactly when the key has no sequence of its own and names
    a member inherited from [Object.prototype]; for every other key it
    leaves, for the key, the new event time after exactly those
    previously retained timestamps [t] with
    [0 <= eventTime - t <= WINDOW], in their order; the count it returns
    is the length of that sequence; no other key is touched. *)
Theorem record_retains_window (tr : gmap string (list Z)) (ip : string) (ft : Z) :
  let old := default [] (tr !! ip) in
  let kept := List.filter (inWindow ft) old in
  (aggregate tr ip ft = None ↔ tr !! ip = None ∧ JS.inherited ip = true)
  ∧ (is_Some (tr !! ip) ∨ JS.inherited ip = false →
     ∃ tr' count,
       aggregate tr ip ft = Some (tr', count)
       ∧ tr' !! ip = Some (kept ++ [ft])
       ∧ count = length (kept ++ [ft])
       ∧ (∀ other, other ≠ ip → tr' !! other = tr !! other))
  ∧ (∀ t, t ∈ kept ↔ t ∈ old ∧ (0 ≤ ft - t ≤ THRESHOLD_WINDOW_MS)%Z)
  ∧ (∀ t, t ∈ old → (ft - t > THRESHOLD_WINDOW_MS ∨ ft - t < 0)%Z → t ∉ kept).
Proof.
  cbv zeta.
  assert (Hin : ∀ t, t ∈ List.filter (inWindow ft) (default [] (tr !! ip))
                ↔ t ∈ default [] (tr !! ip)
                  ∧ (0 ≤ ft - t ≤ THRESHOLD_WINDOW_MS)%Z).
  { intros t. rewrite !list_elem_of_In, filter_In, inWindow_spec. done. }
  split_and!.
  - rewrite <- findsInherited_spec. unfold aggregate.
    by destruct (findsInherited tr ip).
  - intros Hown. apply findsInherited_false in Hown.
    rewrite aggregate_Some by done. unfold record, recentDetections.
    do 2 eexists. split; [reflexivity|]. split_and!.
    + by rewrite lookup_insert_eq.
    + done.
    + intros other Hne. by rewrite lookup_insert_ne.
  - exact Hin.
  - intros t _ Hout Hk. apply Hin in Hk. lia.
Qed.

(** C5. Once the threshold is met and the store holds no rule for the
    key: a successful insert removes the key from the tracker; a failed
    insert (reported or thrown) leaves the tracker as the record step
    made it, the window evidence still there, and the store as it was.
    A failed existence check (reported or thrown) leaves the tracker as
    the record step made it, attempts no insert and stores nothing. *)
Theorem insert_outcome_and_tracker
    (env : db_env) tr db row prediction jobId now ip ft :
  sourceKey row = Some ip →
  flowTime date_parse row = Some ft →
  (THRESHOLD_COUNT ≤ length (recentDetections tr ip ft))%nat →
  let o := manageDefenseRules date_parse env tr db row prediction jobId now in
  let recorded := (record tr ip ft).1 in
  (on_select env = SelectAnswers → rulesFor db ip = [] →
     (on_insert env = InsertOk →
        tracker o = delete ip recorded ∧ tracker o !! ip = None
        ∧ result o = Returns true ∧ is_Some (insert_attempt o))
     ∧ (on_insert env ≠ InsertOk →
        tracker o = recorded
        ∧ tracker o !! ip = Some (recentDetections tr ip ft)
        ∧ store o = db ∧ result o ≠ Returns true
        ∧ is_Some (insert_attempt o)))
  ∧ (on_select env ≠ SelectAnswers →
     tracker o = recorded
     ∧ tracker o !! ip = Some (recentDetections tr ip ft)
     ∧ insert_attempt o = None ∧ store o = db ∧ result o = Returns false).
Proof.
  intros Hk Ht Hge. simpl.
  rewrite (manage_reached env tr db row prediction jobId now ip ft Hk Ht Hge).
  unfold record. simpl. split.
  - intros -> ->. split.
    + intros ->. simpl. rewrite lookup_delete_eq. eauto.
    + intros Hne. destruct (on_insert env); [done| |]; simpl;
        rewrite lookup_insert_eq; split_and!; eauto; done.
  - intros Hne. destruct (on_select env); [| |done]; simpl;
      rewrite lookup_insert_eq; done.
Qed.

(** C1, as the code has it. For a key whose window count has reached the
    threshold, the existence check having answered: rule creation is
    skipped exactly when the store holds a rule for that key, whatever
    its status (active, expired or inactive); when the store holds none,
    a rule is built with [expiresAt = now + RULE_EXPIRATION_MINUTES],
    the triggering label as threat type, and the triggering flow id and
    the count as evidence. *)
Theorem creation_skipped_iff_any_rule
    (env : db_env) tr db row prediction jobId now ip ft :
  sourceKey row = Some ip →
  flowTime date_parse row = Some ft →
  (THRESHOLD_COUNT ≤ length (recentDetections tr ip ft))%nat →
  on_select env = SelectAnswers →
  let o := manageDefenseRules date_parse env tr db row prediction jobId now in
  (insert_attempt o = None ↔ ∃ r, r ∈ db ∧ ip_address (rule r) = ip)
  ∧ ((∀ r, r ∈ db → ip_address (rule r) ≠ ip) →
     insert_attempt o
     = Some {| ip_address := ip;
               threat_type := prediction;
               expires_at := (now + RULE_EXPIRATION_MINUTES * 60 * 1000)%Z;
               is_active := true;
               analysis_id := jobId;
               raw_flow_data :=
                 {| trigger_flow_id :=
                      JS.or (JS.get row "flow_id") (JS.Str "N/A");
                    threat_count := length (recentDetections tr ip ft) |} |}).
Proof.
  intros Hk Ht Hge Hsel. simpl.
  rewrite (manage_reached env tr db row prediction jobId now ip ft Hk Ht Hge).
  rewrite Hsel. split.
  - destruct (rulesFor db ip) as [|r l] eqn:E.
    + pose proof (proj1 (rulesFor_nil db ip) E) as E'. split.
      * by destruct (on_insert env).
      * intros (r & Hr & Hip). by destruct (E' r Hr).
    + split; [|done]. intros _. exists r.
      assert (Hin : In r (rulesFor db ip)) by (rewrite E; by left).
      unfold rulesFor in Hin. apply filter_In in Hin as [Hin Heq].
      apply String.eqb_eq in Heq. split; [by apply list_elem_of_In | done].
  - intros Hno. rewrite (proj2 (rulesFor_nil db ip) Hno).
    by destruct (on_insert env).
Qed.

End RuleEngineFacts.

(** ** Bursts of events for one key *)

Section BurstFacts.

Import RuleEngine Calls.

Variable date_parse : string → option Z.

Lemma eventOf_Some (c : call) ip t :
  eventOf date_parse c = Some (ip, t) →
  sourceKey (c_row c) = Some ip ∧ flowTime date_parse (c_row c) = Some t.
Proof.
  unfold eventOf. destruct (sourceKey (c_row c)), (flowTime date_parse (c_row c));
    naive_solver.
Qed.

Lemma filter_keeps_all (t : Z) (old : list Z) :
  Forall (λ a, inWindowOf a t) old → List.filter (inWindow t) old = old.
Proof.
  induction 1 as [|a old Ha _ IH]; simpl; [done|].
  rewrite (proj2 (inWindow_spec t a) Ha). by rewrite IH.
Qed.

Lemma length_recentDetections (tr : gmap string (list Z)) ip t :
  (length (recentDetections tr ip t) ≤ S (length (default [] (tr !! ip))))%nat.
Proof.
  unfold recentDetections. rewrite length_app. simpl.
  pose proof (filter_length_le (inWindow t) (default [] (tr !! ip))). lia.
Qed.

Lemma runCalls_app (l1 l2 : list call) tr db :
  runCalls date_parse (l1 ++ l2) tr db
  = let r1 := runCalls date_parse l1 tr db in
    let r2 := runCalls date_parse l2 (final_tracker r1) (final_store r1) in
    {| final_tracker := final_tracker r2;
       final_store := final_store r2;
       insert_attempts := insert_attempts r1 ++ insert_attempts r2 |}.
Proof.
  revert tr db. induction l1 as [|c l1 IH]; intros tr db; simpl.
  - by destruct (runCalls date_parse l2 tr db).
  - rewrite IH. simpl. by rewrite app_assoc.
Qed.

(** Fewer events than the threshold allows: the database is never asked. *)
Lemma run_short (calls : list call) (times : list Z) ip tr db :
  Forall2 (λ c t, eventOf date_parse c = Some (ip, t)) calls times →
  (length (default [] (tr !! ip)) + length calls < THRESHOLD_COUNT)%nat →
  let r := runCalls date_parse calls tr db in
  insert_attempts r = [] ∧ final_store r = db.
Proof.
  intros H. revert tr. induction H as [|c t calls times Hc _ IH]; intros tr Hlen.
  - done.
  - simpl in *. apply eventOf_Some in Hc as [Hk Ht].
    pose proof (length_recentDetections tr ip t) as Hle.
    unfold step. destruct (findsInherited tr ip) eqn:Hf.
    + rewrite (manage_thrown date_parse _ tr db _ _ _ _ ip t Hk Ht Hf).
      simpl. apply IH. lia.
    + rewrite (manage_below date_parse _ tr db _ _ _ _ ip t Hk Ht Hf) by lia.
      simpl. apply IH. rewrite lookup_insert_eq. simpl. lia.
Qed.

(** The same, the events arriving in order inside one window: the
    tracker holds all of them. *)
Lemma run_short_window (calls : list call) (times : list Z) ip tr db :
  JS.inherited ip = false →
  Forall2 (λ c t, eventOf date_parse c = Some (ip, t)) calls times →
  StronglySorted inWindowOf (default [] (tr !! ip) ++ times) →
  (length (default [] (tr !! ip)) + length calls < THRESHOLD_COUNT)%nat →
  let r := runCalls date_parse calls tr db in
  default [] (final_tracker r !! ip) = default [] (tr !! ip) ++ times
  ∧ insert_attempts r = [] ∧ final_store r = db.
Proof.
  intros Hip H. revert tr.
  induction H as [|c t calls times Hc _ IH]; intros tr Hs Hlen.
  - simpl. by rewrite app_nil_r.
  - simpl in *. apply eventOf_Some in Hc as [Hk Ht].
    assert (Hrec : recentDetections tr ip t = default [] (tr !! ip) ++ [t]).
    { unfold recentDetections. f_equal. apply filter_keeps_all.
      apply StronglySorted_app in Hs as (Hall & _ & _).
      apply Forall_forall. intros a Ha. apply Hall; [done | by left]. }
    unfold step. rewrite (manage_below date_parse _ tr db _ _ _ _ ip t Hk Ht);
      [|apply findsInherited_false; by right
       |rewrite Hrec, length_app; simpl; lia].
    simpl. rewrite Hrec.
    specialize (IH (<[ip := default [] (tr !! ip) ++ [t]]> tr)).
    rewrite lookup_insert_eq in IH. simpl in IH.
    rewrite <- app_assoc in IH. simpl in IH.
    apply IH; [done|]. rewrite length_app. simpl. lia.
Qed.

(** C8, as the code has it.  For a key the tracker does not know yet,
    a run of events of that key: with fewer than THRESHOLD events no
    insert is attempted; with exactly THRESHOLD events that arrive in
    time order, each with all the earlier ones inside its window, the
    key not naming a member inherited from [Object.prototype], the
    store holding no rule for the key and the existence check of the
    last event answering, exactly one insert is attempted, by the
    THRESHOLD-th event, with the count THRESHOLD. *)
Theorem burst_inserts_once
    (calls : list call) (times : list Z) (ip : string)
    (tr : gmap string (list Z)) (db : list StoredRule) :
  tr !! ip = None →
  Forall2 (λ c t, eventOf date_parse c = Some (ip, t)) calls times →
  let r := runCalls date_parse calls tr db in
  ((length calls < THRESHOLD_COUNT)%nat → insert_attempts r = [])
  ∧ (length calls = THRESHOLD_COUNT →
     JS.inherited ip = false →
     StronglySorted inWindowOf times →
     (∀ s, s ∈ db → ip_address (rule s) ≠ ip) →
     (∀ c, last calls = Some c → on_select (c_env c) = SelectAnswers) →
     ∃ c created,
       last calls = Some c
       ∧ insert_attempts (runCalls date_parse (removelast calls) tr db) = []
       ∧ insert_attempts r = [created]
       ∧ ip_address created = ip
       ∧ threat_type created = c_prediction c
       ∧ expires_at created = (c_now c + RULE_EXPIRATION_MINUTES * 60 * 1000)%Z
       ∧ threat_count (raw_flow_data created) = THRESHOLD_COUNT).
Proof.
  intros Hnone Hev. simpl. split.
  - intros Hlt. eapply run_short; [done|]. rewrite Hnone. simpl. lia.
  - intros Hlen Hip Hs Hno Hans.
    destruct (exists_last (l := calls)) as (init & c & ->);
      [intros ->; done|].
    apply Forall2_app_inv_l in Hev as (ts & tl & Hinit & Hlast & ->).
    inversion Hlast as [|? t ? ? Hc Hnil]; subst.
    inversion Hnil; subst.
    rewrite length_app in Hlen. simpl in Hlen.
    rewrite last_snoc in *. rewrite removelast_last.
    specialize (Hans c eq_refl).
    pose proof (run_short_window init ts ip tr db Hip Hinit) as Hrun.
    rewrite Hnone in Hrun. simpl in Hrun.
    destruct Hrun as (Htr & Hatt & Hdb);
      [by apply StronglySorted_app_1_l in Hs | lia |].
    exists c. rewrite runCalls_app. simpl. rewrite Hatt, Hdb. simpl.
    set (tr' := final_tracker (runCalls date_parse init tr db)) in *.
    apply eventOf_Some in Hc as [Hk Ht].
    assert (Hrec : recentDetections tr' ip t = ts ++ [t]).
    { unfold recentDetections. rewrite Htr. f_equal. apply filter_keeps_all.
      apply StronglySorted_app in Hs as (Hall & _ & _).
      apply Forall_forall. intros a Ha. apply Hall; [done | by left]. }
    assert (Hcount : length (recentDetections tr' ip t) = THRESHOLD_COUNT).
    { rewrite Hrec, length_app. simpl.
      apply Forall2_length in Hinit. lia. }
    unfold step.
    rewrite (manage_reached date_parse _ tr' db _ _ _ _ ip t Hk Ht) by lia.
    rewrite Hans, (proj2 (rulesFor_nil db ip) Hno).
    eexists. split; [done|]. split; [done|].
    split; [by destruct (on_insert (c_env c))|].
    by rewrite Hcount.
Qed.

End BurstFacts.

(** ** The batch loop *)

Section BatchFacts.

Import Batch.

Context {A R : Type}.
Variable BATCH_SIZE : nat.
Hypothesis BATCH_SIZE_pos : (0 < BATCH_SIZE)%nat.

Variable f : nat → list A → list R.
Variable out : nat → A → R.
Variable rows : list A.

Hypothesis f_pointwise : ∀ i,
  i mod BATCH_SIZE = 0%nat → (i < length rows)%nat →
  f i (slice rows i (i + BATCH_SIZE))
  = imap (λ k, out (i + k)) (slice rows i (i + BATCH_SIZE)).

Lemma slice_take_drop (i : nat) :
  slice rows i (i + BATCH_SIZE) = take BATCH_SIZE (drop i rows).
Proof. unfold slice. f_equal. lia. Qed.

(** With fuel for every remaining round, the loop started at [i] appends
    the image of the rows from [i] on. *)
Lemma forBatches_from (fuel i : nat) (acc : list R) :
  i mod BATCH_SIZE = 0%nat →
  (length rows ≤ i + fuel * BATCH_SIZE)%nat →
  forBatches fuel BATCH_SIZE (λ i batch acc, acc ++ f i batch) rows i acc
  = acc ++ imap (λ k, out (i + k)) (drop i rows).
Proof.
  revert i acc. induction fuel as [|fuel IH]; intros i acc Hi Hlen; simpl.
  - rewrite drop_ge by lia. simpl. by rewrite app_nil_r.
  - destruct (Nat.ltb_spec i (length rows)) as [Hlt|Hge].
    + rewrite IH; [| |lia].
      * rewrite f_pointwise by done. rewrite slice_take_drop.
        rewrite <- app_assoc. f_equal. symmetry.
        etrans.
        { rewrite <- (take_drop BATCH_SIZE (drop i rows)). apply imap_app. }
        f_equal. rewrite drop_drop.
        destruct (Nat.le_gt_cases (i + BATCH_SIZE) (length rows)) as [Hfull|Hpart].
        -- apply imap_ext. intros k x _. simpl.
           rewrite length_take, length_drop, Nat.min_l by lia.
           by rewrite Nat.add_assoc.
        -- by rewrite (drop_ge rows (i + BATCH_SIZE)) by lia.
      * rewrite <- Nat.Div0.add_mod_idemp_l, Hi. simpl.
        apply Nat.Div0.mod_same.
    + rewrite drop_ge by lia. simpl. by rewrite app_nil_r.
Qed.

(** The whole loop, with the number of rows as fuel. *)
Lemma forBatches_all :
  forBatches (length rows) BATCH_SIZE (λ i batch acc, acc ++ f i batch) rows 0 []
  = imap out rows.
Proof.
  rewrite forBatches_from; [done | by apply Nat.Div0.mod_0_l | nia].
Qed.

(** More fuel changes nothing. *)
Lemma forBatches_fuel (fuel : nat) :
  (length rows ≤ fuel)%nat →
  forBatches fuel BATCH_SIZE (λ i batch acc, acc ++ f i batch) rows 0 []
  = imap out rows.
Proof.
  intros H. rewrite forBatches_from; [done | by apply Nat.Div0.mod_0_l | nia].
Qed.

End BatchFacts.

(** ** Re-analysis: the policy test and the partition *)

Section ReanalysisFacts.

Import Batch Reanalysis.

Variable date_parse : string → option Z.

Lemma lower_upper_ascii (c : Ascii.ascii) :
  JS.lower_ascii (Transformer.upper_ascii c) = JS.lower_ascii c.
Proof. by destruct c as [[] [] [] [] [] [] [] []]. Qed.

Lemma casingOf_toLowerCase (s t : string) :
  casingOf s t → JS.toLowerCase s = JS.toLowerCase t.
Proof.
  induction 1 as [|c s t _ IH|c s t _ IH]; simpl; [done| |].
  - by rewrite IH.
  - by rewrite lower_upper_ascii, IH.
Qed.

Lemma get_insert_ne (row : JS.object) (k k' : string) (v : JS.value) :
  k ≠ k' → JS.get (<[k := v]> row) k' = JS.get row k'.
Proof. intros H. unfold JS.get. by rewrite lookup_insert_ne. Qed.

Lemma get_insert_eq (row : JS.object) (k : string) (v : JS.value) :
  JS.get (<[k := v]> row) k = v.
Proof. unfold JS.get. by rewrite lookup_insert_eq. Qed.

(** The addresses [blockedIpMap] knows are those of the rules read. *)
Lemma fold_insert_lookup (rules : list RuleEngine.StoredRule)
    (m0 : gmap string RuleWindow) (k : string) :
  is_Some (fold_left
             (λ blockedIpMap r,
                <[RuleEngine.ip_address (RuleEngine.rule r) :=
                    {| w_created_at := RuleEngine.created_at r;
                       w_expires_at :=
                         RuleEngine.expires_at (RuleEngine.rule r) |}]>
                  blockedIpMap)
             rules m0 !! k)
  ↔ is_Some (m0 !! k)
    ∨ ∃ r, r ∈ rules ∧ RuleEngine.ip_address (RuleEngine.rule r) = k.
Proof.
  revert m0. induction rules as [|r rules IH]; intros m0; simpl.
  - split; [by left|]. intros [H|(r & Hr & _)]; [done | inversion Hr].
  - rewrite IH. rewrite lookup_insert_is_Some. split.
    + intros [[Heq|[_ H]]|(r' & Hr' & Hk)].
      * right. exists r. split; [by left | done].
      * by left.
      * right. exists r'. split; [by right | done].
    + intros [H|(r' & Hr' & Hk)].
      * destruct (decide (RuleEngine.ip_address (RuleEngine.rule r) = k));
          left; [by left | by right].
      * apply elem_of_cons in Hr' as [->|Hr'].
        -- left. by left.
        -- right. by exists r'.
Qed.

Lemma blockedIpMap_lookup (now : Z) (db : list RuleEngine.StoredRule) (k : string) :
  is_Some (buildBlockedIpMap (selectActiveRules true now db) !! k)
  ↔ activeRuleOn now db k.
Proof.
  unfold buildBlockedIpMap, selectActiveRules, activeRuleOn.
  rewrite fold_insert_lookup, lookup_empty. split.
  - intros [[? H]|(r & Hr & Hk)]; [done|].
    apply list_elem_of_In, filter_In in Hr as [Hr Ha].
    exists r. by rewrite list_elem_of_In.
  - intros (r & Hr & Ha & Hk). right. exists r. split; [|done].
    apply list_elem_of_In, filter_In. by rewrite <- list_elem_of_In.
Qed.

(** A key that names no member finds a rule or nothing. *)
Lemma finds_plain (m : gmap string RuleWindow) (key : string) :
  key ∉ memberNames → finds m key = true ↔ is_Some (m !! key).
Proof.
  unfold memberNames. rewrite elem_of_app. intros Hplain. unfold finds.
  destruct (m !! key) as [r|]; [by split; [eauto|]|].
  assert (Hi : JS.inherited key = false).
  { apply bool_decide_eq_false_2. tauto. }
  assert (Hc : String.eqb key "created_at" = false).
  { apply String.eqb_neq. intros ->. apply Hplain. right. by left. }
  assert (He : String.eqb key "expires_at" = false).
  { apply String.eqb_neq. intros ->. apply Hplain. right. right. by left. }
  rewrite Hi, Hc, He. simpl.
  destruct (m !! "__proto__"); split; by try intros [? ?].
Qed.

(** A key that names an inherited member always finds something. *)
Lemma finds_inherited (m : gmap string RuleWindow) (key : string) :
  JS.inherited key = true → finds m key = true.
Proof. intros H. unfold finds. rewrite H. by destruct (m !! key). Qed.

(** The test of step 4 once the label is known. *)
Lemma isBlockedByPolicy_labelled (m : gmap string RuleWindow) row label :
  originalPrediction row = Some label →
  isBlockedByPolicy date_parse m row
  = Some ((finds m (JS.toPropertyKey (JS.get row "src_ip"))
           || finds m (JS.toPropertyKey (JS.get row "dst_ip")))
          && negb (String.eqb label "benign")
          && negb (String.eqb label "error")).
Proof.
  intros H. unfold isBlockedByPolicy. rewrite H. do 3 f_equal.
  by rewrite andb_true_r.
Qed.

Lemma isBlockedByPolicy_true (m : gmap string RuleWindow) row label :
  originalPrediction row = Some label →
  isBlockedByPolicy date_parse m row = Some true
  ↔ (finds m (JS.toPropertyKey (JS.get row "src_ip")) = true
     ∨ finds m (JS.toPropertyKey (JS.get row "dst_ip")) = true)
    ∧ label ≠ "benign" ∧ label ≠ "error".
Proof.
  intros H. rewrite (isBlockedByPolicy_labelled m row label H).
  split.
  - intros [= Hb]. apply andb_prop in Hb as [Hb He].
    apply andb_prop in Hb as [Hr Hb]. apply orb_true_iff in Hr.
    apply negb_true_iff, String.eqb_neq in Hb, He. done.
  - intros (Hr & Hb & He). f_equal.
    apply String.eqb_neq in Hb, He. rewrite Hb, He.
    apply orb_true_iff in Hr. by rewrite Hr.
Qed.

Lemma originalPrediction_insert (row : JS.object) (field : string) (v : JS.value) :
  field ≠ "prediction" →
  originalPrediction (<[field := v]> row) = originalPrediction row.
Proof. intros H. unfold originalPrediction. by rewrite get_insert_ne. Qed.

(** The test reads the row through three fields only. *)
Lemma isBlockedByPolicy_insert (m : gmap string RuleWindow) row field v :
  field ≠ "src_ip" → field ≠ "dst_ip" → field ≠ "prediction" →
  isBlockedByPolicy date_parse m (<[field := v]> row)
  = isBlockedByPolicy date_parse m row.
Proof.
  intros Hs Hd Hp. unfold isBlockedByPolicy.
  rewrite originalPrediction_insert by done.
  by rewrite !(get_insert_ne row field) by done.
Qed.

(** The [forEach] of step 4 is a partition by the policy test. *)
Lemma filterRows_spec (m : gmap string RuleWindow) (hist adm blk : list JS.object) :
  Forall (λ row, is_Some (originalPrediction row)) hist →
  filterRows date_parse m hist adm blk
  = Some (adm ++ List.filter (λ r, negb (blocks date_parse m r)) hist,
          blk ++ map markBlocked (List.filter (blocks date_parse m) hist)).
Proof.
  intros H. revert adm blk.
  induction H as [|row hist [label Hl] _ IH]; intros adm blk; simpl.
  - by rewrite !app_nil_r.
  - assert (Hb : isBlockedByPolicy date_parse m row
                 = Some (blocks date_parse m row)).
    { unfold blocks. rewrite (isBlockedByPolicy_labelled m row label Hl).
      destruct (_ && _ && _);
        [by rewrite bool_decide_eq_true_2 | by rewrite bool_decide_eq_false_2]. }
    rewrite Hb.
    destruct (blocks date_parse m row); rewrite IH; simpl;
      by rewrite <- app_assoc.
Qed.

Lemma filter_complement_perm {X} (p : X → bool) (l : list X) :
  l ≡ₚ List.filter (λ x, negb (p x)) l ++ List.filter p l.
Proof.
  induction l as [|x l IH]; simpl; [done|].
  destruct (p x); simpl.
  - rewrite <- Permutation_middle. by constructor.
  - by constructor.
Qed.

(** Where the partition puts one row of the flow set. *)
Lemma filterRows_around (m : gmap string RuleWindow) before row after :
  Forall (λ r, is_Some (originalPrediction r)) (before ++ row :: after) →
  ∃ adm1 blk1 adm2 blk2,
    filterRows date_parse m before [] [] = Some (adm1, blk1)
    ∧ filterRows date_parse m after [] [] = Some (adm2, blk2)
    ∧ filterRows date_parse m (before ++ row :: after) [] []
      = Some (if blocks date_parse m row
              then (adm1 ++ adm2, blk1 ++ markBlocked row :: blk2)
              else (adm1 ++ row :: adm2, blk1 ++ blk2)).
Proof.
  intros Hall. pose proof Hall as Hall'.
  apply Forall_app in Hall' as [Hbef Hrest].
  apply Forall_cons in Hrest as [_ Haft].
  rewrite !filterRows_spec by done.
  do 4 eexists. split; [done|]. split; [done|].
  rewrite !List.filter_app. cbn [List.filter app].
  destruct (blocks date_parse m row); cbn [negb app];
    by rewrite ?map_app.
Qed.

(** C2. With the active rules read from the store, a historical flow
    whose two addresses name no member that the rule map inherits is
    put in the blocked set exactly when an active rule exists for its
    source or its destination address and its original label is neither
    "benign" nor "error"; a flow labelled benign or error is admitted
    whatever the rules and the addresses; the decision reads the flow
    through its two addresses and its prediction only, so changing any
    other field (its own timestamp among them) does not change it; and
    the two arrays of step 4 are the flows failing and passing this
    test.  An address that names a member inherited from
    [Object.prototype] counts as having a rule. *)
Theorem blocked_iff_active_rule_and_label
    (now : Z) (db : list RuleEngine.StoredRule) (row : JS.object) (label : string) :
  originalPrediction row = Some label →
  let m := buildBlockedIpMap (selectActiveRules true now db) in
  let src := JS.toPropertyKey (JS.get row "src_ip") in
  let dst := JS.toPropertyKey (JS.get row "dst_ip") in
  (src ∉ memberNames → dst ∉ memberNames →
   (isBlockedByPolicy date_parse m row = Some true
    ↔ (activeRuleOn now db src ∨ activeRuleOn now db dst)
      ∧ label ≠ "benign" ∧ label ≠ "error")
   ∧ (isBlockedByPolicy date_parse m row = Some false
      ↔ ¬ ((activeRuleOn now db src ∨ activeRuleOn now db dst)
           ∧ label ≠ "benign" ∧ label ≠ "error")))
  ∧ (JS.inherited src = true ∨ JS.inherited dst = true →
     (isBlockedByPolicy date_parse m row = Some true
      ↔ label ≠ "benign" ∧ label ≠ "error"))
  ∧ (label = "benign" ∨ label = "error" →
     isBlockedByPolicy date_parse m row = Some false)
  ∧ (∀ field v,
       field ≠ "src_ip" → field ≠ "dst_ip" → field ≠ "prediction" →
       isBlockedByPolicy date_parse m (<[field := v]> row)
       = isBlockedByPolicy date_parse m row)
  ∧ (∀ before after,
       Forall (λ r, is_Some (originalPrediction r)) (before ++ row :: after) →
       ∃ adm1 blk1 adm2 blk2,
         filterRows date_parse m before [] [] = Some (adm1, blk1)
         ∧ filterRows date_parse m after [] [] = Some (adm2, blk2)
         ∧ filterRows date_parse m (before ++ row :: after) [] []
           = Some (if blocks date_parse m row
                   then (adm1 ++ adm2, blk1 ++ markBlocked row :: blk2)
                   else (adm1 ++ row :: adm2, blk1 ++ blk2))).
Proof.
  intros Hl m src dst. subst src dst.
  assert (Hsome : ∃ b, isBlockedByPolicy date_parse m row = Some b).
  { rewrite (isBlockedByPolicy_labelled m row label Hl). eauto. }
  split_and!.
  - intros Hsrc Hdst.
    assert (Htrue : isBlockedByPolicy date_parse m row = Some true
      ↔ (activeRuleOn now db (JS.toPropertyKey (JS.get row "src_ip"))
         ∨ activeRuleOn now db (JS.toPropertyKey (JS.get row "dst_ip")))
        ∧ label ≠ "benign" ∧ label ≠ "error").
    { rewrite (isBlockedByPolicy_true m row label Hl).
      rewrite !finds_plain by done. unfold m.
      by rewrite !blockedIpMap_lookup. }
    split; [exact Htrue|].
    rewrite <- Htrue. destruct Hsome as [[] ->].
    + split; [done | intros Hn; by destruct Hn].
    + split; [by intros _ [=] | done].
  - intros Hmember. rewrite (isBlockedByPolicy_true m row label Hl).
    split; [by intros [_ ?]|]. intros Hlabel. split; [|done].
    destruct Hmember as [H|H]; [left | right]; by apply finds_inherited.
  - intros Hlabel. rewrite (isBlockedByPolicy_labelled m row label Hl).
    destruct Hlabel as [-> | ->]; simpl; by rewrite ?andb_false_r.
  - intros field v. apply isBlockedByPolicy_insert.
  - intros before after. apply filterRows_around.
Qed.

Lemma originalPrediction_missing (row : JS.object) :
  JS.get row "prediction" = JS.Null ∨ JS.get row "prediction" = JS.Undefined →
  originalPrediction row = Some "error".
Proof. unfold originalPrediction. by intros [-> | ->]. Qed.

Lemma originalPrediction_casing (row : JS.object) (s target : string) :
  JS.get row "prediction" = JS.Str s →
  casingOf s target → target ≠ "" →
  originalPrediction row = Some (JS.toLowerCase target).
Proof.
  intros Hp Hc Hne. unfold originalPrediction. rewrite Hp.
  rewrite <- (casingOf_toLowerCase s target Hc).
  by destruct Hc.
Qed.

(** C9. The label test is case-insensitive and total on missing data:
    a flow whose stored prediction is null, undefined, or "benign" or
    "error" in any letter-casing is not put in the blocked set, whatever
    rules are active, and goes to the admitted flows; a missing
    prediction counts as the label "error". *)
Theorem missing_or_any_case_label_not_blocked
    (m : gmap string RuleWindow) (row : JS.object) :
  JS.get row "prediction" = JS.Null
  ∨ JS.get row "prediction" = JS.Undefined
  ∨ (∃ s, JS.get row "prediction" = JS.Str s
          ∧ (casingOf s "benign" ∨ casingOf s "error")) →
  isBlockedByPolicy date_parse m row = Some false
  ∧ (JS.get row "prediction" = JS.Null ∨ JS.get row "prediction" = JS.Undefined →
     originalPrediction row = Some "error")
  ∧ (∀ before after,
       Forall (λ r, is_Some (originalPrediction r)) (before ++ row :: after) →
       ∃ adm1 blk1 adm2 blk2,
         filterRows date_parse m before [] [] = Some (adm1, blk1)
         ∧ filterRows date_parse m after [] [] = Some (adm2, blk2)
         ∧ filterRows date_parse m (before ++ row :: after) [] []
           = Some (adm1 ++ row :: adm2, blk1 ++ blk2)).
Proof.
  intros Hcase.
  assert (Hlabel : originalPrediction row = Some "benign"
                   ∨ originalPrediction row = Some "error").
  { destruct Hcase as [Hn | [Hu | (s & Hs & [Hc | Hc])]].
    - right. apply originalPrediction_missing. by left.
    - right. apply originalPrediction_missing. by right.
    - left. by apply (originalPrediction_casing row s "benign").
    - right. by apply (originalPrediction_casing row s "error"). }
  assert (Hadm : isBlockedByPolicy date_parse m row = Some false).
  { destruct Hlabel as [Hl | Hl];
      rewrite (isBlockedByPolicy_labelled m row _ Hl); simpl;
      by rewrite ?andb_false_r. }
  split_and!; [done | apply originalPrediction_missing |].
  intros before after Hall.
  destruct (filterRows_around m before row after Hall)
    as (adm1 & blk1 & adm2 & blk2 & H1 & H2 & H3).
  exists adm1, blk1, adm2, blk2. split_and!; [done | done |].
  rewrite H3. unfold blocks. rewrite Hadm.
  by rewrite bool_decide_eq_false_2.
Qed.

Lemma isBlockedByPolicy_marked (m : gmap string RuleWindow) (row : JS.object) :
  isBlockedByPolicy date_parse m row = Some true →
  isBlockedByPolicy date_parse m (markBlocked row) = Some true.
Proof.
  intros H.
  destruct (originalPrediction row) as [label|] eqn:Hl;
    [|unfold isBlockedByPolicy in H; by rewrite Hl in H].
  pose proof (proj1 (isBlockedByPolicy_true m row label Hl) H) as (Hrule & _ & _).
  apply (isBlockedByPolicy_true m _ "rule_blocked_historical").
  - unfold originalPrediction, markBlocked. by rewrite get_insert_eq.
  - unfold markBlocked. by rewrite !(get_insert_ne row "prediction").
Qed.

(** The partition returns, and loses no flow. *)
Lemma filterRows_lengths (m : gmap string RuleWindow) (hist : list JS.object) :
  Forall (λ row, is_Some (originalPrediction row)) hist →
  ∃ adm blk,
    filterRows date_parse m hist [] [] = Some (adm, blk)
    ∧ (length adm + length blk = length hist)%nat.
Proof.
  intros Hall. do 2 eexists. split; [by apply filterRows_spec|].
  cbn [app]. rewrite length_map.
  pose proof (filter_length (blocks date_parse m) hist). lia.
Qed.

(** C3. The partition of step 4 gives every flow to exactly one of the
    two arrays: the admitted flows and the flows behind the blocked ones
    are together a rearrangement of the historical flows, so the two
    lengths add up to the number of historical flows; every admitted
    flow fails the policy test and every blocked one passes it; and no
    row is in both arrays. *)
Theorem partition_exhaustive_disjoint
    (m : gmap string RuleWindow) (hist : list JS.object) :
  Forall (λ row, is_Some (originalPrediction row)) hist →
  ∃ adm blk blockedOrig,
    filterRows date_parse m hist [] [] = Some (adm, blk)
    ∧ (length adm + length blk = length hist)%nat
    ∧ blk = map markBlocked blockedOrig
    ∧ hist ≡ₚ adm ++ blockedOrig
    ∧ Forall (λ r, isBlockedByPolicy date_parse m r = Some false) adm
    ∧ Forall (λ r, isBlockedByPolicy date_parse m r = Some true) blockedOrig
    ∧ (∀ x, x ∈ adm → x ∉ blk).
Proof.
  intros Hall.
  exists (List.filter (λ r, negb (blocks date_parse m r)) hist),
         (map markBlocked (List.filter (blocks date_parse m) hist)),
         (List.filter (blocks date_parse m) hist).
  assert (Hadm : ∀ r, r ∈ List.filter (λ r, negb (blocks date_parse m r)) hist →
                 isBlockedByPolicy date_parse m r = Some false).
  { intros r Hr. apply list_elem_of_In, filter_In in Hr as [Hr Hb].
    apply list_elem_of_In in Hr.
    rewrite Forall_forall in Hall. destruct (Hall r Hr) as [label Hl].
    unfold blocks in Hb. apply negb_true_iff, bool_decide_eq_false_1 in Hb.
    rewrite (isBlockedByPolicy_labelled m r label Hl) in *.
    destruct (_ && _ && _); [by destruct Hb | done]. }
  assert (Hblk : ∀ r, r ∈ List.filter (blocks date_parse m) hist →
                 isBlockedByPolicy date_parse m r = Some true).
  { intros r Hr. apply list_elem_of_In, filter_In in Hr as [_ Hb].
    by apply bool_decide_eq_true_1 in Hb. }
  split_and!.
  - by rewrite filterRows_spec.
  - rewrite length_map.
    pose proof (filter_length (blocks date_parse m) hist). lia.
  - done.
  - apply filter_complement_perm.
  - by apply Forall_forall.
  - by apply Forall_forall.
  - intros x Hx Hx'. apply Hadm in Hx.
    apply list_elem_of_fmap in Hx' as (r & -> & Hr).
    apply Hblk, isBlockedByPolicy_marked in Hr. congruence.
Qed.

End ReanalysisFacts.

(** ** Re-prediction and the response *)

Section RePredictionFacts.

Import Batch Reanalysis.

Variable date_parse : string → option Z.
Variable gateway : nat → list JS.object → gateway_reply.
Variable Dashboard : Type.
Variable transformPredictionData : list JS.object → option Dashboard.

Lemma batch_position (B i k : nat) :
  i mod B = 0%nat → (k < B)%nat →
  ((i + k) mod B = k ∧ i + k - (i + k) mod B = i)%nat.
Proof.
  intros Hi Hk.
  assert (E : ((i + k) mod B = k)%nat).
  { rewrite <- Nat.Div0.add_mod_idemp_l, Hi. simpl. by apply Nat.mod_small. }
  rewrite E. lia.
Qed.

Lemma lookup_slice_lt {X} (l : list X) (i B k : nat) (x : X) :
  slice l i (i + B) !! k = Some x → (k < B)%nat ∧ l !! (i + k)%nat = Some x.
Proof.
  unfold slice. replace (i + B - i)%nat with B by lia. intros H.
  apply lookup_take_Some in H as [H Hk]. by rewrite lookup_drop in H.
Qed.

(** The loop of step 5 treats every row according to its own batch. *)
Lemma rePredict_imap (flows : list JS.object) :
  rePredict gateway flows = imap (rePredictedAt gateway flows) flows.
Proof.
  unfold rePredict. apply forBatches_all; [unfold BATCH_SIZE; lia|].
  intros i Hi Hlt. unfold rePredictBatch.
  destruct (gateway i (map stripLabels (slice flows i (i + BATCH_SIZE))))
    as [|[predictions|]] eqn:E.
  - rewrite <- imap_const. apply imap_ext. intros k x Hx.
    apply lookup_slice_lt in Hx as [Hk _].
    destruct (batch_position BATCH_SIZE i k Hi Hk) as [E1 E2].
    unfold rePredictedAt. by rewrite E2, E.
  - apply imap_ext. intros k x Hx.
    apply lookup_slice_lt in Hx as [Hk _].
    destruct (batch_position BATCH_SIZE i k Hi Hk) as [E1 E2].
    unfold rePredictedAt. by rewrite E2, E, E1.
  - rewrite <- imap_const. apply imap_ext. intros k x Hx.
    apply lookup_slice_lt in Hx as [Hk _].
    destruct (batch_position BATCH_SIZE i k Hi Hk) as [E1 E2].
    unfold rePredictedAt. by rewrite E2, E.
Qed.

Lemma rePredictedAt_fields (flows : list JS.object) (j : nat) (row : JS.object) :
  JS.get (rePredictedAt gateway flows j row) "original_prediction"
  = JS.get row "prediction"
  ∧ ∀ field, field ≠ "prediction" → field ≠ "original_prediction" →
      rePredictedAt gateway flows j row !! field = row !! field.
Proof.
  unfold rePredictedAt.
  destruct (gateway _ _) as [|[predictions|]]; unfold rePredictRow, keepRow;
    (split;
     [ rewrite get_insert_ne by done; apply get_insert_eq
     | intros field H1 H2; by rewrite !lookup_insert_ne by done ]).
Qed.

(** C6. The re-predicted result has exactly one row per admitted flow,
    in order: the flow with its prior label kept as
    [original_prediction] and every field other than the two labels
    unchanged, whichever batches fail.  For a batch whose gateway call
    fails, every flow of the batch is in the result with its prior label
    as prediction; the batches after it are still processed. *)
Theorem failed_batch_keeps_prior_labels (flows : list JS.object) :
  let result := rePredict gateway flows in
  length result = length flows
  ∧ (∀ j row, flows !! j = Some row →
       ∃ row', result !! j = Some row'
         ∧ JS.get row' "original_prediction" = JS.get row "prediction"
         ∧ ∀ field, field ≠ "prediction" → field ≠ "original_prediction" →
             row' !! field = row !! field)
  ∧ (∀ i, (i mod BATCH_SIZE = 0)%nat → batchFails gateway flows i →
       ∀ k row, (k < BATCH_SIZE)%nat → flows !! (i + k)%nat = Some row →
         result !! (i + k)%nat = Some (keepRow row)
         ∧ JS.get (keepRow row) "prediction" = JS.get row "prediction"
         ∧ JS.get (keepRow row) "original_prediction" = JS.get row "prediction").
Proof.
  simpl. rewrite rePredict_imap. split_and!.
  - apply length_imap.
  - intros j row Hj. exists (rePredictedAt gateway flows j row).
    rewrite list_lookup_imap, Hj. split; [done|].
    apply rePredictedAt_fields.
  - intros i Hi Hfail k row Hk Hrow.
    rewrite list_lookup_imap, Hrow. simpl.
    destruct (batch_position BATCH_SIZE i k Hi Hk) as [E1 E2].
    unfold rePredictedAt. rewrite E2.
    unfold batchFails in Hfail.
    unfold keepRow.
    rewrite get_insert_eq, get_insert_ne by done. rewrite get_insert_eq.
    by destruct (gateway i _) as [|[predictions|]].
Qed.

Lemma length_rePredict (flows : list JS.object) :
  length (rePredict gateway flows) = length flows.
Proof. rewrite rePredict_imap. apply length_imap. Qed.

(** C4, as the code has it. For a request that names a job: the answer
    is the not-found condition exactly when the read of the job's flows
    gives no row (none stored, or the read failed).  For a job with
    stored flows, all with string or missing labels: when at least one
    flow is admitted and the dashboard summary is built, the answer has
    the admitted-flows summary, the blocked-flows summary, the original
    flow count and the admitted flow count; when every flow is blocked
    by policy, the answer is a message with the job id only. *)
Theorem reanalyze_answer (w : world) (id : JS.value) :
  JS.truthy id = true →
  let flows :=
    getAnalysisResultsByJobId (flows_read_ok w) (analysis_results w) id in
  let m :=
    buildBlockedIpMap
      (selectActiveRules (rules_read_ok w) (now w) (defense_rules w)) in
  let answer :=
    reanalyzeRules date_parse gateway Dashboard transformPredictionData w id in
  (answer = NotFound id ↔ flows = None ∨ flows = Some [])
  ∧ (∀ hist,
       flows = Some hist → hist ≠ [] →
       Forall (λ row, is_Some (originalPrediction row)) hist →
       ∃ adm blk,
         filterRows date_parse m hist [] [] = Some (adm, blk)
         ∧ (length adm + length blk = length hist)%nat
         ∧ (adm = [] → answer = AllFiltered id)
         ∧ (adm ≠ [] →
            ∀ d, transformPredictionData (rePredict gateway adm) = Some d →
              answer
              = Reanalyzed
                  {| finalDashboardData := d;
                     r_analysis_id := id;
                     original_flow_count := length hist;
                     reanalyzed_flow_count := length adm;
                     blockedData := Transformer.transformBlockedData blk |}
              ∧ Transformer.blockedCount (Transformer.transformBlockedData blk)
                = length blk)).
Proof.
  intros Hid flows m answer. subst answer. unfold reanalyzeRules.
  rewrite Hid. cbn [negb]. fold flows. fold m. split.
  - destruct flows as [[|row hist]|]; [by split; [right|] | | by split; [left|]].
    split; [|by intros [|]].
    destruct (filterRows date_parse m (row :: hist) [] []) as [[adm blk]|];
      [|done].
    destruct (length adm =? 0)%nat; [done|].
    by destruct (transformPredictionData (rePredict gateway adm)).
  - intros hist Hflows Hne Hall. rewrite Hflows.
    destruct hist as [|row hist]; [done|].
    destruct (filterRows_lengths date_parse m (row :: hist) Hall)
      as (adm & blk & Hf & Hlen).
    exists adm, blk. rewrite Hf. split_and!; [done | done | |].
    + by intros ->.
    + intros Hadm d Hd.
      destruct adm as [|a adm]; [done|]. cbn [length Nat.eqb].
      rewrite Hd, length_rePredict. done.
Qed.

End RePredictionFacts.

(** ** Ingestion: labels the gateway did not give *)

Section IngestFacts.

Import Batch Ingest.

Variable gateway : nat → list JS.object → gateway_reply.

Lemma ingest_imap (strip : JS.object → JS.object) jobId (rows : list JS.object) :
  ingest gateway strip jobId rows = imap (labelledAt gateway strip jobId rows) rows.
Proof.
  unfold ingest. apply forBatches_all; [unfold BATCH_SIZE; lia|].
  intros i Hi Hlt. unfold ingestBatch.
  destruct (gateway i (map strip (slice rows i (i + BATCH_SIZE))))
    as [|[predictions|]] eqn:E.
  - rewrite <- imap_const. apply imap_ext. intros k x Hx.
    apply lookup_slice_lt in Hx as [Hk _].
    destruct (batch_position BATCH_SIZE i k Hi Hk) as [E1 E2].
    unfold labelledAt. by rewrite E2, E.
  - apply imap_ext. intros k x Hx.
    apply lookup_slice_lt in Hx as [Hk _].
    destruct (batch_position BATCH_SIZE i k Hi Hk) as [E1 E2].
    unfold labelledAt. by rewrite E2, E, E1.
  - rewrite <- imap_const. apply imap_ext. intros k x Hx.
    apply lookup_slice_lt in Hx as [Hk _].
    destruct (batch_position BATCH_SIZE i k Hi Hk) as [E1 E2].
    unfold labelledAt. by rewrite E2, E.
Qed.

Lemma labelAt_missing (predictions : list JS.value) (index : nat) :
  noLabelAt predictions index → labelAt predictions index = JS.Str "Error".
Proof.
  unfold labelAt, JS.or. intros [Hlen | (v & Hv & Hf)].
  - by rewrite lookup_ge_None_2.
  - rewrite Hv. simpl. by rewrite Hf.
Qed.

Lemma labelRow_missing (predictions : list JS.value) jobId index row :
  noLabelAt predictions index →
  labelRow predictions jobId index row = (errorRow jobId row, None).
Proof.
  intros H. unfold labelRow. rewrite (labelAt_missing _ _ H). done.
Qed.

Lemma labelRow_submits (predictions : list JS.value) jobId index row r s :
  labelRow predictions jobId index row = (r, Some s) →
  s_prediction s ≠ JS.Str "Error" ∧ s_prediction s ≠ JS.Str "benign"
  ∧ s_row s = row ∧ JS.get r "prediction" = s_prediction s.
Proof.
  unfold labelRow. cbn [DIAGNOSTIC_FORCE_ATTACK andb].
  destruct (JS.strict_ne _ _ && JS.strict_ne _ _) eqn:E; [|done].
  intros [= <- <-]. simpl.
  apply andb_prop in E as [E1 E2].
  unfold JS.strict_ne, JS.strict_eq in *.
  apply negb_true_iff, bool_decide_eq_false_1 in E1, E2.
  split_and!; [done | done | done |].
  rewrite get_insert_ne by done. apply get_insert_eq.
Qed.

Lemma ingest_missing (strip : JS.object → JS.object) jobId rows j row predictions :
  rows !! j = Some row →
  gateway (j - j mod BATCH_SIZE)
    (map strip (slice rows (j - j mod BATCH_SIZE)
                  (j - j mod BATCH_SIZE + BATCH_SIZE)))
  = GatewayReplies (Some predictions) →
  noLabelAt predictions (j mod BATCH_SIZE) →
  ingest gateway strip jobId rows !! j = Some (errorRow jobId row, None).
Proof.
  intros Hrow Hg Hno. rewrite ingest_imap, list_lookup_imap, Hrow. simpl.
  unfold labelledAt. rewrite Hg. by rewrite labelRow_missing.
Qed.

Lemma ingest_submissions (strip : JS.object → JS.object) jobId rows s :
  s ∈ submissions (ingest gateway strip jobId rows) →
  s_prediction s ≠ JS.Str "Error" ∧ s_prediction s ≠ JS.Str "benign".
Proof.
  unfold submissions. rewrite ingest_imap.
  intros (x & Hx & Hs)%list_elem_of_omap.
  apply elem_of_lookup_imap_1 in Hx as (j & row & -> & Hrow).
  unfold labelledAt in Hs. destruct (gateway _ _) as [|[predictions|]]; try done.
  destruct (labelRow predictions jobId (j mod BATCH_SIZE) row) as [r o] eqn:E.
  simpl in Hs. subst o.
  by destruct (labelRow_submits _ _ _ _ _ _ E) as (? & ? & _).
Qed.

(** C10. In both ingestion loops, when the gateway answers the batch of
    a row with fewer labels than the row's index needs, or with a falsy
    label at that index, the row gets the prediction "Error" and starts
    no rule evaluation; and no rule evaluation is ever started with the
    label "Error" (nor with "benign"). *)
Theorem missing_label_gives_Error_unsubmitted
    (jobId : string) (rows : list JS.object) (j : nat) (row : JS.object) :
  rows !! j = Some row →
  let i := (j - j mod BATCH_SIZE)%nat in
  let batch := slice rows i (i + BATCH_SIZE) in
  (∀ predictions,
     gateway i (map stripCsv batch) = GatewayReplies (Some predictions) →
     noLabelAt predictions (j mod BATCH_SIZE) →
     ∃ labelled,
       analyzeCsv gateway jobId rows !! j = Some (labelled, None)
       ∧ JS.get labelled "prediction" = JS.Str "Error"
       ∧ labelled = errorRow jobId row)
  ∧ (∀ predictions,
       gateway i (map stripApi batch) = GatewayReplies (Some predictions) →
       noLabelAt predictions (j mod BATCH_SIZE) →
       ∃ labelled,
         analyzeApi gateway jobId rows !! j = Some (labelled, None)
         ∧ JS.get labelled "prediction" = JS.Str "Error"
         ∧ labelled = errorRow jobId row)
  ∧ (∀ s, s ∈ submissions (analyzeCsv gateway jobId rows)
          ∨ s ∈ submissions (analyzeApi gateway jobId rows) →
       s_prediction s ≠ JS.Str "Error").
Proof.
  intros Hrow i batch. split_and!.
  - intros predictions Hg Hno. exists (errorRow jobId row).
    split_and!; [by eapply ingest_missing | | done].
    unfold errorRow. rewrite get_insert_ne by done. apply get_insert_eq.
  - intros predictions Hg Hno. exists (errorRow jobId row).
    split_and!; [by eapply ingest_missing | | done].
    unfold errorRow. rewrite get_insert_ne by done. apply get_insert_eq.
  - intros s [Hs | Hs]; by apply ingest_submissions in Hs as [? _].
Qed.

End IngestFacts.

(** ** Instances on the sample data *)

Import RuleEngine Calls Batch Ingest Reanalysis Samples.

(** C1 as the specification states it fails: the count reaches the
    threshold, the existence check answers, the store holds for the key
    only a rule that has expired, and yet no rule is created. *)
Lemma expired_rule_still_blocks_creation :
  let now := 10000000%Z in
  let o := manageDefenseRules noDates answering nearThreshold [oldRule]
             (flowAt 1500) (JS.Str "DDoS") "job-1" now in
  sourceKey (flowAt 1500) = Some attacker
  ∧ flowTime noDates (flowAt 1500) = Some 1500%Z
  ∧ length (recentDetections nearThreshold attacker 1500) = THRESHOLD_COUNT
  ∧ rulesFor [oldRule] attacker = [oldRule]
  ∧ activeAt now oldRule = false
  ∧ hasActiveRule now [oldRule] attacker = false
  ∧ insert_attempt o = None
  ∧ ¬ (insert_attempt o = None ↔ hasActiveRule now [oldRule] attacker = true).
Proof.
  vm_compute. split_and!; try reflexivity. intros [H _].
  by specialize (H eq_refl).
Qed.

(** With no rule in the store, the fiftieth detection builds the rule. *)
Lemma creation_skipped_iff_any_rule_witness :
  insert_attempt
    (manageDefenseRules noDates answering nearThreshold []
       (flowAt 1500) (JS.Str "DDoS") "job-1" 2000)
  = Some {| ip_address := attacker; threat_type := JS.Str "DDoS";
            expires_at := 3602000; is_active := true; analysis_id := "job-1";
            raw_flow_data := {| trigger_flow_id := JS.Str "f-17";
                                threat_count := 50 |} |}.
Proof.
  refine (proj2 (creation_skipped_iff_any_rule noDates answering nearThreshold []
                   (flowAt 1500) (JS.Str "DDoS") "job-1" 2000 attacker 1500
                   _ _ _ _) _).
  - reflexivity.
  - reflexivity.
  - vm_compute. apply le_n.
  - reflexivity.
  - intros r Hr. inversion Hr.
Defined.

(** The three database behaviours on the fiftieth detection. *)
Lemma insert_outcome_and_tracker_witness :
  tracker (manageDefenseRules noDates answering nearThreshold []
             (flowAt 1500) (JS.Str "DDoS") "job-1" 2000) !! attacker = None
  ∧ tracker (manageDefenseRules noDates refusing nearThreshold []
               (flowAt 1500) (JS.Str "DDoS") "job-1" 2000) !! attacker
    = Some (replicate 49 1000%Z ++ [1500%Z])
  ∧ tracker (manageDefenseRules noDates unreachable nearThreshold []
               (flowAt 1500) (JS.Str "DDoS") "job-1" 2000) !! attacker
    = Some (replicate 49 1000%Z ++ [1500%Z]).
Proof.
  assert (Hk : sourceKey (flowAt 1500) = Some attacker) by reflexivity.
  assert (Ht : flowTime noDates (flowAt 1500) = Some 1500%Z) by reflexivity.
  assert (Hc : (THRESHOLD_COUNT
                ≤ length (recentDetections nearThreshold attacker 1500))%nat)
    by (vm_compute; apply le_n).
  split_and!.
  - destruct (insert_outcome_and_tracker noDates answering nearThreshold []
                (flowAt 1500) (JS.Str "DDoS") "job-1" 2000 attacker 1500
                Hk Ht Hc) as [Hins _].
    destruct (Hins eq_refl eq_refl) as [Hok _].
    exact (proj1 (proj2 (Hok eq_refl))).
  - destruct (insert_outcome_and_tracker noDates refusing nearThreshold []
                (flowAt 1500) (JS.Str "DDoS") "job-1" 2000 attacker 1500
                Hk Ht Hc) as [Hins _].
    destruct (Hins eq_refl eq_refl) as [_ Hfail].
    assert (Hne : on_insert refusing ≠ InsertOk) by discriminate.
    exact (proj1 (proj2 (Hfail Hne))).
  - destruct (insert_outcome_and_tracker noDates unreachable nearThreshold []
                (flowAt 1500) (JS.Str "DDoS") "job-1" 2000 attacker 1500
                Hk Ht Hc) as [_ Hsel].
    assert (Hne : on_select unreachable ≠ SelectAnswers) by discriminate.
    exact (proj1 (proj2 (Hsel Hne))).
Defined.

(** Recording 15000 drops the stale 1000 and the future 20000; a key
    named "constructor" that has no sequence of its own throws. *)
Lemma record_retains_window_witness :
  (∃ tr',
     aggregate {[ attacker := [1000; 20000; 5000; 14000]%Z ]} attacker 15000
     = Some (tr', 3%nat)
     ∧ tr' !! attacker = Some [5000; 14000; 15000]%Z)
  ∧ aggregate ∅ "constructor" 15000 = None.
Proof.
  split.
  - destruct (record_retains_window
                {[ attacker := [1000; 20000; 5000; 14000]%Z ]} attacker 15000)
      as (_ & Hrec & _).
    destruct Hrec as (tr' & count & Hagg & Hseq & Hcount & _);
      [right; reflexivity|].
    exists tr'. subst count. split; [exact Hagg | exact Hseq].
  - apply (proj2 (proj1 (record_retains_window ∅ "constructor" 15000))).
    split; reflexivity.
Defined.

(** Forty-nine events 100 ms apart ask nothing of the store; fifty
    insert once. *)
Lemma burst_inserts_once_witness :
  insert_attempts (runCalls noDates (burst 49) ∅ []) = []
  ∧ ∃ created,
      insert_attempts (runCalls noDates (burst 50) ∅ []) = [created]
      ∧ ip_address created = attacker
      ∧ threat_count (raw_flow_data created) = THRESHOLD_COUNT.
Proof.
  assert (H49 : Forall2 (λ c t, eventOf noDates c = Some (attacker, t))
                  (burst 49) (burstTimes 49)).
  { cbv [burst burstTimes seq map].
    repeat (constructor; [reflexivity|]). constructor. }
  assert (H50 : Forall2 (λ c t, eventOf noDates c = Some (attacker, t))
                  (burst 50) (burstTimes 50)).
  { cbv [burst burstTimes seq map].
    repeat (constructor; [reflexivity|]). constructor. }
  assert (Hw : StronglySorted inWindowOf (burstTimes 50)).
  { apply (bool_decide_eq_true_1 _). vm_compute. reflexivity. }
  assert (Hnew : (∅ : gmap string (list Z)) !! attacker = None)
    by reflexivity.
  split.
  - refine (proj1 (burst_inserts_once noDates (burst 49) (burstTimes 49)
                     attacker ∅ [] Hnew H49) _).
    vm_compute. apply le_n.
  - destruct (proj2 (burst_inserts_once noDates (burst 50) (burstTimes 50)
                       attacker ∅ [] Hnew H50) eq_refl eq_refl Hw)
      as (c & created & _ & _ & Hone & Hip & _ & _ & Hcount).
    + intros s Hs. inversion Hs.
    + intros c [= <-]. reflexivity.
    + exists created. split_and!; assumption.
Defined.

(** C8 as the specification states it fails: fifty events of one key,
    within 4.9 s of one another, no rule in the store, arriving latest
    first.  Each call finds the retained time in the future of its own,
    drops it and counts 1: nothing is inserted. *)
Lemma burst_out_of_order_inserts_nothing :
  let times := rev (burstTimes 50) in
  let calls := map callAt times in
  length calls = THRESHOLD_COUNT
  ∧ Forall2 (λ c t, eventOf noDates c = Some (attacker, t)) calls times
  ∧ Forall (λ a, Forall (λ b, (Z.abs (a - b) ≤ THRESHOLD_WINDOW_MS)%Z) times)
           times
  ∧ insert_attempts (runCalls noDates calls ∅ []) = []
  ∧ ¬ (∃ created, insert_attempts (runCalls noDates calls ∅ []) = [created]).
Proof.
  cbv zeta.
  assert (Hnone : insert_attempts
                    (runCalls noDates (map callAt (rev (burstTimes 50))) ∅ [])
                  = []) by (vm_compute; reflexivity).
  split_and!.
  - reflexivity.
  - apply (bool_decide_eq_true_1 _). vm_compute. reflexivity.
  - apply (bool_decide_eq_true_1 _). vm_compute. reflexivity.
  - exact Hnone.
  - intros [created H]. rewrite Hnone in H. discriminate.
Qed.

(** The attacker's flow is blocked, whatever its [created_at]. *)
Lemma blocked_iff_active_rule_and_label_witness :
  isBlockedByPolicy noDates
    (buildBlockedIpMap (selectActiveRules true 1000 [oldRule])) attackFlow
  = Some true
  ∧ isBlockedByPolicy noDates
      (buildBlockedIpMap (selectActiveRules true 1000 [oldRule]))
      (<["created_at" := JS.Str "1999-01-01T00:00:00Z"]> attackFlow)
    = Some true.
Proof.
  destruct (blocked_iff_active_rule_and_label noDates 1000 [oldRule]
              attackFlow "ddos" eq_refl) as (Hplain & _ & _ & Hfield & _).
  assert (H : isBlockedByPolicy noDates
                (buildBlockedIpMap (selectActiveRules true 1000 [oldRule]))
                attackFlow = Some true).
  { apply Hplain.
    - apply (bool_decide_eq_true_1 _). vm_compute. reflexivity.
    - apply (bool_decide_eq_true_1 _). vm_compute. reflexivity.
    - split_and!; [|discriminate|discriminate].
      left. exists oldRule.
      split_and!; [apply list_elem_of_here | reflexivity..]. }
  split; [exact H|].
  rewrite Hfield; [exact H | discriminate..].
Defined.

(** "Benign" and a null prediction pass, the attacker's rule being active. *)
Lemma missing_or_any_case_label_not_blocked_witness :
  isBlockedByPolicy noDates
    (buildBlockedIpMap (selectActiveRules true 1000 [oldRule])) benignFlow
  = Some false
  ∧ isBlockedByPolicy noDates
      (buildBlockedIpMap (selectActiveRules true 1000 [oldRule])) unlabelledFlow
    = Some false.
Proof.
  split.
  - refine (proj1 (missing_or_any_case_label_not_blocked noDates _ benignFlow _)).
    right. right. exists "Benign". split; [reflexivity|]. left.
    exact (casing_upper "b" _ _
             (casing_same "e" _ _
                (casing_same "n" _ _
                   (casing_same "i" _ _
                      (casing_same "g" _ _
                         (casing_same "n" _ _ casing_nil)))))).
  - refine (proj1 (missing_or_any_case_label_not_blocked noDates _ unlabelledFlow _)).
    left. reflexivity.
Defined.

(** Four stored flows, one of them blocked. *)
Lemma partition_exhaustive_disjoint_witness :
  ∃ adm blk,
    filterRows noDates
      (buildBlockedIpMap (selectActiveRules true 1000 [oldRule]))
      [attackFlow; benignFlow; otherFlow; unlabelledFlow] [] []
    = Some (adm, blk)
    ∧ (length adm + length blk = 4)%nat
    ∧ ∀ x, x ∈ adm → x ∉ blk.
Proof.
  destruct (partition_exhaustive_disjoint noDates
              (buildBlockedIpMap (selectActiveRules true 1000 [oldRule]))
              [attackFlow; benignFlow; otherFlow; unlabelledFlow])
    as (adm & blk & orig & Hf & Hlen & _ & _ & _ & _ & Hdisj).
  - repeat (constructor; [eexists; reflexivity|]). constructor.
  - exists adm, blk. split_and!; assumption.
Defined.

(** With the gateway down both flows come back with their labels. *)
Lemma failed_batch_keeps_prior_labels_witness :
  rePredict gatewayDown [otherFlow; benignFlow] !! 1%nat
  = Some (keepRow benignFlow)
  ∧ length (rePredict gatewayDown [otherFlow; benignFlow]) = 2%nat.
Proof.
  destruct (failed_batch_keeps_prior_labels gatewayDown [otherFlow; benignFlow])
    as (Hlen & _ & Hfail).
  split; [|exact Hlen].
  refine (proj1 (Hfail 0%nat eq_refl I 1%nat benignFlow _ eq_refl)).
  vm_compute. repeat constructor.
Defined.

(** C4 as the specification states it fails: the job has a stored flow,
    an active rule blocks it, and the answer is a message with the job
    id, without summaries or counts. *)
Lemma all_flows_blocked_gives_message_only :
  let answer :=
    reanalyzeRules noDates gatewayDown nat countRows
      (worldOf [attackFlow]) (JS.Str "job-1") in
  getAnalysisResultsByJobId true [attackFlow] (JS.Str "job-1")
  = Some [attackFlow]
  ∧ filterRows noDates
      (buildBlockedIpMap (selectActiveRules true 1000 [oldRule]))
      [attackFlow] [] []
    = Some ([], [markBlocked attackFlow])
  ∧ answer = AllFiltered (JS.Str "job-1")
  ∧ ¬ ∃ body, answer = Reanalyzed body.
Proof.
  split_and!; [reflexivity | reflexivity | reflexivity |].
  intros [body H]. vm_compute in H. discriminate.
Qed.

(** A job without flows is not found; a job with one blocked and one
    admitted flow gets the full report. *)
Lemma reanalyze_answer_witness :
  reanalyzeRules noDates gatewayDown nat countRows
    (worldOf []) (JS.Str "job-1") = NotFound (JS.Str "job-1")
  ∧ ∃ body,
      reanalyzeRules noDates gatewayDown nat countRows
        (worldOf [attackFlow; benignFlow]) (JS.Str "job-1") = Reanalyzed body
      ∧ original_flow_count body = 2%nat
      ∧ reanalyzed_flow_count body = 1%nat
      ∧ Transformer.blockedCount (blockedData body) = 1%nat.
Proof.
  split.
  - refine (proj2 (proj1 (reanalyze_answer noDates gatewayDown nat countRows
                            (worldOf []) (JS.Str "job-1") eq_refl)) _).
    right. reflexivity.
  - destruct (proj2 (reanalyze_answer noDates gatewayDown nat countRows
                       (worldOf [attackFlow; benignFlow]) (JS.Str "job-1")
                       eq_refl)
                [attackFlow; benignFlow] eq_refl)
      as (adm & blk & Hf & _ & _ & Hrep).
    + discriminate.
    + repeat (constructor; [eexists; reflexivity|]). constructor.
    + assert (Hparts :
        filterRows noDates
          (buildBlockedIpMap (selectActiveRules true 1000 [oldRule]))
          [attackFlow; benignFlow] [] []
        = Some ([benignFlow], [markBlocked attackFlow])).
      { vm_cast_no_check
          (eq_refl (Some ([benignFlow], [markBlocked attackFlow]))). }
      cbn [worldOf rules_read_ok now defense_rules] in Hf.
      rewrite Hparts in Hf. injection Hf as <- <-.
      assert (Hd : countRows (rePredict gatewayDown [benignFlow]) = Some 1%nat).
      { vm_cast_no_check (eq_refl (Some 1%nat)). }
      destruct (Hrep ltac:(discriminate) 1%nat Hd) as [Hanswer Hcount].
      eexists. split; [exact Hanswer|].
      cbn [original_flow_count reanalyzed_flow_count blockedData length].
      split_and!; [reflexivity | reflexivity | exact Hcount].
Defined.

(** One label for two rows: the second row is labelled "Error". *)
Lemma missing_label_gives_Error_unsubmitted_witness :
  (∃ labelled,
     analyzeCsv gatewayShort "job-1" [flowAt 1; flowAt 2] !! 1%nat
     = Some (labelled, None)
     ∧ JS.get labelled "prediction" = JS.Str "Error")
  ∧ (∃ labelled,
       analyzeApi gatewayShort "job-1" [flowAt 1; flowAt 2] !! 1%nat
       = Some (labelled, None)
       ∧ JS.get labelled "prediction" = JS.Str "Error").
Proof.
  destruct (missing_label_gives_Error_unsubmitted gatewayShort "job-1"
              [flowAt 1; flowAt 2] 1 (flowAt 2) eq_refl)
    as (Hcsv & Hapi & _).
  split.
  - destruct (Hcsv [JS.Str "DDoS"] eq_refl) as (labelled & H1 & H2 & _).
    + left. vm_compute. apply le_n.
    + by exists labelled.
  - destruct (Hapi [JS.Str "DDoS"] eq_refl) as (labelled & H1 & H2 & _).
    + left. vm_compute. apply le_n.
    + by exists labelled.
Defined.


(** * Further properties of the code *)

(** ** The sweep *)

Section SweepFacts.

Import RuleEngine Sweep.

Lemma fresh_spec (now t : Z) :
  fresh now t = true ↔ (now - t ≤ THRESHOLD_WINDOW_MS)%Z.
Proof. unfold fresh. lia. Qed.

Lemma lookup_sweep (now : Z) (tr : gmap string (list Z)) (k : string) :
  sweep now tr !! k
  = match tr !! k with
    | Some old =>
        match List.filter (fresh now) old with
        | [] => None
        | t :: kept => Some (t :: kept)
        end
    | None => None
    end.
Proof.
  unfold sweep. rewrite lookup_omap. destruct (tr !! k) as [old|]; [|done].
  simpl. by destruct (List.filter (fresh now) old).
Qed.

(** Filtering by [q] after filtering by [p] is filtering by [q] when
    [q] implies [p]. *)
Lemma filter_filter_implied {X} (p q : X → bool) (l : list X) :
  (∀ x, q x = true → p x = true) →
  List.filter q (List.filter p l) = List.filter q l.
Proof.
  intros H. induction l as [|x l IH]; simpl; [done|].
  destruct (p x) eqn:Hp; simpl.
  - by rewrite IH.
  - destruct (q x) eqn:Hq; [|done]. apply H in Hq. congruence.
Qed.

(** X1. After a sweep at [now], a key that is still there holds a
    non-empty sequence: its old timestamps with [now - t <= WINDOW], in
    their order (timestamps ahead of the clock among them); a key is
    gone exactly when it was absent or all its timestamps were older
    than the window. *)
Theorem sweep_keeps_fresh_only (now : Z) (tr : gmap string (list Z)) (k : string) :
  (∀ kept, sweep now tr !! k = Some kept →
     kept ≠ []
     ∧ (∃ old, tr !! k = Some old ∧ kept = List.filter (fresh now) old)
     ∧ ∀ t, t ∈ kept → (now - t ≤ THRESHOLD_WINDOW_MS)%Z)
  ∧ (∀ old t, tr !! k = Some old → t ∈ old →
       (now - t ≤ THRESHOLD_WINDOW_MS)%Z →
       ∃ kept, sweep now tr !! k = Some kept ∧ t ∈ kept)
  ∧ (sweep now tr !! k = None
     ↔ ∀ old t, tr !! k = Some old → t ∈ old →
         (now - t > THRESHOLD_WINDOW_MS)%Z).
Proof.
  rewrite lookup_sweep. destruct (tr !! k) as [old|] eqn:Hk.
  - assert (Hin : ∀ t, t ∈ List.filter (fresh now) old
                  ↔ t ∈ old ∧ (now - t ≤ THRESHOLD_WINDOW_MS)%Z).
    { intros t. by rewrite !list_elem_of_In, filter_In, fresh_spec. }
    destruct (List.filter (fresh now) old) as [|t0 kept0] eqn:Hf.
    + split_and!; [done | |].
      * intros old' t [= <-] Ht Hle.
        assert (H : t ∈ @nil Z) by (apply Hin; done). inversion H.
      * split; [|done]. intros _ old' t [= <-] Ht.
        destruct (Z.le_gt_cases (now - t) THRESHOLD_WINDOW_MS) as [Hle|Hgt];
          [|lia].
        assert (H : t ∈ @nil Z) by (apply Hin; done). inversion H.
    + split_and!.
      * intros kept [= <-]. split_and!; [done | by exists old |].
        intros t Ht. by apply Hin in Ht as [_ ?].
      * intros old' t [= <-] Ht Hle. eexists. split; [done|]. by apply Hin.
      * split; [done|]. intros H. exfalso.
        assert (Ht0 : t0 ∈ t0 :: kept0) by left.
        apply Hin in Ht0 as [Ht0 Hle].
        specialize (H old t0 eq_refl Ht0). lia.
  - split_and!; [done | done |]. split; [done | done].
Qed.

(** X2. A sweep followed by a sweep at the same or a later clock is the
    later sweep alone; in particular the callback registered twice does
    what one registration does. *)
Theorem sweep_sweep (now1 now2 : Z) (tr : gmap string (list Z)) :
  (now1 ≤ now2)%Z →
  sweep now2 (sweep now1 tr) = sweep now2 tr.
Proof.
  intros Hle. apply map_eq. intros k. rewrite !lookup_sweep.
  destruct (tr !! k) as [old|]; [|done].
  assert (Hff : List.filter (fresh now2) (List.filter (fresh now1) old)
                = List.filter (fresh now2) old).
  { apply filter_filter_implied. intros t. rewrite !fresh_spec. lia. }
  destruct (List.filter (fresh now1) old) as [|t kept] eqn:Hf.
  - simpl in Hff. by rewrite <- Hff.
  - by rewrite Hff.
Qed.

(** X3. A sweep at a clock that is not ahead of an event's time does
    not change what recording the event gives: the same sequence and
    the same count, so the same threshold decision. *)
Theorem record_after_sweep (now ft : Z) (tr : gmap string (list Z)) (ip : string) :
  (now ≤ ft)%Z →
  recentDetections (sweep now tr) ip ft = recentDetections tr ip ft
  ∧ (record (sweep now tr) ip ft).2 = (record tr ip ft).2.
Proof.
  intros Hle.
  assert (H : recentDetections (sweep now tr) ip ft = recentDetections tr ip ft).
  { unfold recentDetections. f_equal. rewrite lookup_sweep.
    destruct (tr !! ip) as [old|]; [|done]. simpl.
    assert (Hff : List.filter (inWindow ft) (List.filter (fresh now) old)
                  = List.filter (inWindow ft) old).
    { apply filter_filter_implied. intros t.
      rewrite inWindow_spec, fresh_spec. lia. }
    destruct (List.filter (fresh now) old); by rewrite <- Hff. }
  split; [done|]. unfold record. simpl. by rewrite H.
Qed.

(** X4. An event that has none of the retained timestamps in its
    window, because they are all older than the window or all later
    than the event, restarts the sequence: for a key that has a
    sequence of its own or does not name a member inherited from
    [Object.prototype], only the event is retained and the count is 1. *)
Theorem record_restarts (tr : gmap string (list Z)) (ip : string) (ft : Z) :
  is_Some (tr !! ip) ∨ JS.inherited ip = false →
  (∀ t, t ∈ default [] (tr !! ip) →
        (ft - t > THRESHOLD_WINDOW_MS ∨ ft - t < 0)%Z) →
  ∃ tr', aggregate tr ip ft = Some (tr', 1%nat) ∧ tr' !! ip = Some [ft].
Proof.
  intros Hown H. apply findsInherited_false in Hown.
  rewrite aggregate_Some by done. unfold record, recentDetections.
  assert (E : List.filter (inWindow ft) (default [] (tr !! ip)) = []).
  { destruct (List.filter _ _) as [|t l] eqn:Hf; [done|]. exfalso.
    assert (Ht : In t (List.filter (inWindow ft) (default [] (tr !! ip))))
      by (rewrite Hf; by left).
    apply filter_In in Ht as [Ht Hw]. apply inWindow_spec in Hw.
    apply list_elem_of_In, H in Ht. lia. }
  rewrite E. simpl. eexists. split; [reflexivity|].
  by rewrite lookup_insert_eq.
Qed.

End SweepFacts.

(** ** Evidence, outcome and independence of keys *)

Section EvidenceFacts.

Import RuleEngine Calls Evidence.

Variable date_parse : string → option Z.

Lemma firstParsed_Some (fields : list JS.value) (t : Z) :
  firstParsed date_parse fields = Some t
  ↔ ∃ i v, fields !! i = Some v ∧ usableTime date_parse v = Some t
           ∧ ∀ j u, (j < i)%nat → fields !! j = Some u →
                    usableTime date_parse u = None.
Proof.
  induction fields as [|v fields IH]; simpl.
  - split; [done|]. by intros (i & v & ? & _).
  - assert (Hhead : firstParsed date_parse (v :: fields)
                    = match usableTime date_parse v with
                      | Some t' => Some t'
                      | None => firstParsed date_parse fields
                      end).
    { simpl. unfold usableTime. by destruct (JS.truthy v). }
    simpl in Hhead. rewrite Hhead.
    destruct (usableTime date_parse v) as [t'|] eqn:Hv.
    + split.
      * intros [= ->]. exists 0%nat, v. split_and!; [done | done |]. lia.
      * intros ([|i] & u & Hu & Hut & Hbefore).
        -- simpl in Hu. congruence.
        -- specialize (Hbefore 0%nat v ltac:(lia) eq_refl). congruence.
    + rewrite IH. split.
      * intros (i & u & Hu & Hut & Hbefore). exists (S i), u.
        split_and!; [done | done |].
        intros [|j] w Hj Hw; [simpl in Hw; congruence|].
        apply (Hbefore j); [lia | done].
      * intros ([|i] & u & Hu & Hut & Hbefore).
        -- simpl in Hu. congruence.
        -- exists i, u. split_and!; [done | done |].
           intros j w Hj Hw. apply (Hbefore (S j)); [lia | done].
Qed.

(** X5. The time of a flow is read from the first of [timestamp],
    [created_at], [Timestamp], [createdAt] that is truthy and a valid
    date: a later field counts only when every earlier one is missing,
    falsy (the number 0 included) or unparseable; with no such field
    there is no time. *)
Theorem flowTime_first_usable_field (row : JS.object) (t : Z) :
  (flowTime date_parse row = Some t
   ↔ ∃ i name,
       timeFieldNames !! i = Some name
       ∧ usableTime date_parse (JS.get row name) = Some t
       ∧ ∀ j earlier, (j < i)%nat → timeFieldNames !! j = Some earlier →
           usableTime date_parse (JS.get row earlier) = None)
  ∧ (flowTime date_parse row = None
     ↔ ∀ name, name ∈ timeFieldNames →
         usableTime date_parse (JS.get row name) = None).
Proof.
  assert (E : flowTime date_parse row
              = firstParsed date_parse (JS.get row <$> timeFieldNames))
    by reflexivity.
  assert (Hsome : ∀ t', flowTime date_parse row = Some t'
    ↔ ∃ i name,
        timeFieldNames !! i = Some name
        ∧ usableTime date_parse (JS.get row name) = Some t'
        ∧ ∀ j earlier, (j < i)%nat → timeFieldNames !! j = Some earlier →
            usableTime date_parse (JS.get row earlier) = None).
  { intros t'. rewrite E, firstParsed_Some. split.
    - intros (i & v & Hv & Hu & Hb).
      rewrite list_lookup_fmap in Hv.
      destruct (timeFieldNames !! i) as [name|] eqn:Hn; [|done].
      injection Hv as <-. exists i, name. split_and!; [done | done |].
      intros j earlier Hj He. apply (Hb j); [done|].
      by rewrite list_lookup_fmap, He.
    - intros (i & name & Hn & Hu & Hb). exists i, (JS.get row name).
      split_and!; [by rewrite list_lookup_fmap, Hn | done |].
      intros j u Hj Hju. rewrite list_lookup_fmap in Hju.
      destruct (timeFieldNames !! j) as [earlier|] eqn:He; [|done].
      injection Hju as <-. by apply (Hb j). }
  split; [apply Hsome|]. split.
  - intros Hnone name Hin.
    destruct (usableTime date_parse (JS.get row name)) as [t'|] eqn:Hu; [|done].
    exfalso.
    assert (Hex : ∃ t'', flowTime date_parse row = Some t'').
    { clear Hsome. rewrite E.
      apply list_elem_of_lookup in Hin as [i Hi].
      assert (Hl : (JS.get row <$> timeFieldNames) !! i
                   = Some (JS.get row name))
        by (by rewrite list_lookup_fmap, Hi).
      revert Hl Hu. generalize (JS.get row <$> timeFieldNames) as fields.
      generalize (JS.get row name) as v. clear.
      intros v fields. revert i.
      induction fields as [|u fields IH]; intros i Hl Hu; [done|].
      simpl. unfold usableTime in *.
      destruct i as [|i]; simpl in Hl.
      - injection Hl as ->. destruct (JS.truthy v); [|done].
        rewrite Hu. eauto.
      - destruct (JS.truthy u); [destruct (JS.getTime date_parse u); eauto|];
          by apply (IH i). }
    destruct Hex as [t'' Ht'']. congruence.
  - intros Hall.
    assert (Hd : flowTime date_parse row = None
                 ∨ ∃ t', flowTime date_parse row = Some t')
      by (destruct (flowTime date_parse row); eauto).
    destruct Hd as [|[t' Hf]]; [done|].
    apply Hsome in Hf as (i & name & Hn & Hu & _).
    rewrite Hall in Hu; [done|]. by apply list_elem_of_lookup_2 in Hn.
Qed.

(** X6. A row gives no source key exactly when [src_ip] is the literal
    UNKNOWN (whatever [dst_ip] is), or [src_ip] is falsy and [dst_ip] is
    falsy or UNKNOWN.  Without a source key or without a time the call
    returns false and changes neither the tracker nor the store. *)
Theorem unresolved_evidence_is_skipped
    (env : db_env) (tr : gmap string (list Z)) (db : list StoredRule)
    (row : JS.object) (prediction : JS.value) (jobId : string) (now : Z) :
  let src := JS.get row "src_ip" in
  let dst := JS.get row "dst_ip" in
  (sourceKey row = None
   ↔ src = JS.Str "UNKNOWN"
     ∨ (JS.truthy src = false
        ∧ (JS.truthy dst = false ∨ dst = JS.Str "UNKNOWN")))
  ∧ (sourceKey row = None ∨ flowTime date_parse row = None →
     manageDefenseRules date_parse env tr db row prediction jobId now
     = {| result := Returns false; tracker := tr; store := db;
          insert_attempt := None |}).
Proof.
  intros src dst. subst src dst. split.
  - unfold sourceKey, JS.or.
    destruct (JS.truthy (JS.get row "src_ip")) eqn:Hs; simpl.
    + rewrite Hs. simpl. unfold JS.strict_eq. case_bool_decide as Hu.
      * split; [intros _; by left | done].
      * split; [done | intros [?|[? _]]; done].
    + destruct (JS.truthy (JS.get row "dst_ip")) eqn:Hd; simpl.
      * unfold JS.strict_eq. case_bool_decide as Hu.
        -- split; [|done]. intros _. right. split; [done | by right].
        -- split; [done|]. intros [Hsrc|[_ [?|?]]]; [|done|done].
           rewrite Hsrc in Hs. done.
      * split; [|done]. intros _. right. split; [done | by left].
  - intros [Hk | Ht]; unfold manageDefenseRules.
    + by rewrite Hk.
    + rewrite Ht. by destruct (sourceKey row).
Qed.

(** X7. The call never removes or changes a stored rule.  It returns
    true exactly when it stored a rule: then the store has grown by one
    active rule for the key of the row, none having been there for that
    key, and the key has been removed from the tracker; otherwise the
    store is as it was. *)
Theorem returns_true_iff_stored
    (env : db_env) (tr : gmap string (list Z)) (db : list StoredRule)
    (row : JS.object) (prediction : JS.value) (jobId : string) (now : Z) :
  let o := manageDefenseRules date_parse env tr db row prediction jobId now in
  (result o = Returns true
   ↔ ∃ created, store o = db ++ [{| created_at := db_clock env; rule := created |}])
  ∧ (result o ≠ Returns true → store o = db)
  ∧ (∀ created,
       store o = db ++ [{| created_at := db_clock env; rule := created |}] →
       sourceKey row = Some (ip_address created)
       ∧ is_active created = true
       ∧ expires_at created = (now + RULE_EXPIRATION_MINUTES * 60 * 1000)%Z
       ∧ insert_attempt o = Some created
       ∧ rulesFor db (ip_address created) = []
       ∧ tracker o !! ip_address created = None).
Proof.
  assert (Hgrow : ∀ (x : StoredRule), db ++ [x] ≠ db).
  { intros x H. apply (f_equal length) in H. rewrite length_app in H.
    simpl in H. lia. }
  assert (Hsame : ∀ o' : outcome,
    store o' = db → result o' ≠ Returns true →
    (result o' = Returns true
     ↔ ∃ created,
         store o' = db ++ [{| created_at := db_clock env; rule := created |}])
    ∧ (result o' ≠ Returns true → store o' = db)
    ∧ (∀ created,
         store o' = db ++ [{| created_at := db_clock env; rule := created |}] →
         sourceKey row = Some (ip_address created)
         ∧ is_active created = true
         ∧ expires_at created = (now + RULE_EXPIRATION_MINUTES * 60 * 1000)%Z
         ∧ insert_attempt o' = Some created
         ∧ rulesFor db (ip_address created) = []
         ∧ tracker o' !! ip_address created = None)).
  { intros o' Hst Hres. rewrite Hst. split_and!.
    - split; [done|]. intros [created Hc]. symmetry in Hc.
      by apply Hgrow in Hc.
    - done.
    - intros created Hc. symmetry in Hc. by apply Hgrow in Hc. }
  cbv zeta. unfold manageDefenseRules.
  destruct (sourceKey row) as [ip|] eqn:Hk; [|by apply Hsame].
  destruct (flowTime date_parse row) as [ft|]; [|by apply Hsame].
  unfold aggregate. destruct (findsInherited tr ip); [by apply Hsame|].
  unfold record. cbv beta iota zeta.
  destruct (THRESHOLD_COUNT <=? length (recentDetections tr ip ft))%nat;
    [|by apply Hsame].
  destruct (on_select env); [by apply Hsame | by apply Hsame |].
  destruct (length (selectByIp db ip) =? 0)%nat eqn:Hsel; [|by apply Hsame].
  apply selectByIp_nil in Hsel.
  destruct (on_insert env); [|by apply Hsame|by apply Hsame].
  cbn [result store insert_attempt tracker].
  split_and!; [split; [eauto | done] | done |].
  intros created Hc. apply app_inj_tail in Hc as [_ [= <-]]. simpl.
  split_and!; try done. apply lookup_delete_eq.
Qed.

(** A call that stays below the threshold records, or throws, and
    does nothing else. *)
Lemma step_quiet (c : call) (tr : gmap string (list Z)) (db : list StoredRule) :
  match countOf date_parse c tr with
  | Some count => (count <? THRESHOLD_COUNT)%nat
  | None => true
  end = true →
  tracker (step date_parse c tr db) = after date_parse c tr
  ∧ store (step date_parse c tr db) = db
  ∧ insert_attempt (step date_parse c tr db) = None.
Proof.
  unfold countOf, after, eventOf, step.
  destruct (sourceKey (c_row c)) as [k|] eqn:Hk; cycle 1.
  { intros _. unfold manageDefenseRules. by rewrite Hk. }
  destruct (flowTime date_parse (c_row c)) as [t|] eqn:Ht; cycle 1.
  { intros _. unfold manageDefenseRules. by rewrite Hk, Ht. }
  destruct (findsInherited tr k) eqn:Hf.
  - intros _. rewrite aggregate_None by done.
    by rewrite (manage_thrown date_parse _ tr db _ _ _ _ k t Hk Ht Hf).
  - rewrite aggregate_Some by done. simpl. intros Hlt. apply Nat.ltb_lt in Hlt.
    by rewrite (manage_below date_parse _ tr db _ _ _ _ k t Hk Ht Hf Hlt).
Qed.

(** A call leaves the sequences of the other keys alone. *)
Lemma after_other (c : call) (tr : gmap string (list Z)) (k : string) :
  sourceKey (c_row c) ≠ Some k → after date_parse c tr !! k = tr !! k.
Proof.
  unfold after, eventOf. intros Hne.
  destruct (sourceKey (c_row c)) as [k'|]; [|done].
  destruct (flowTime date_parse (c_row c)) as [t|]; [|done].
  unfold aggregate. destruct (findsInherited tr k'); [done|].
  unfold record. simpl. apply lookup_insert_ne. congruence.
Qed.

(** What a call does to its key depends on the sequence of that key
    only. *)
Lemma after_same (c : call) (tr1 tr2 : gmap string (list Z)) (k : string) :
  sourceKey (c_row c) = Some k → tr1 !! k = tr2 !! k →
  after date_parse c tr1 !! k = after date_parse c tr2 !! k
  ∧ countOf date_parse c tr1 = countOf date_parse c tr2.
Proof.
  unfold after, countOf, eventOf. intros Hk Heq. rewrite Hk.
  destruct (flowTime date_parse (c_row c)) as [t|]; [|done].
  unfold aggregate, findsInherited. rewrite Heq.
  destruct (bool_decide (tr2 !! k = None) && JS.inherited k); [done|].
  unfold record, recentDetections. simpl.
  by rewrite !lookup_insert_eq, Heq.
Qed.

Lemma concerns_true (ip : string) (c : call) :
  concerns ip c = true ↔ sourceKey (c_row c) = Some ip.
Proof.
  unfold concerns. destruct (sourceKey (c_row c)) as [k|]; [|done].
  rewrite String.eqb_eq. split; congruence.
Qed.

Lemma runs_agree_on_key (ip : string) (calls : list call) :
  ∀ tr1 tr2 db1 db2,
    tr1 !! ip = tr2 !! ip →
    staysBelow date_parse calls tr1 = true →
    final_tracker (runCalls date_parse calls tr1 db1) !! ip
    = final_tracker
        (runCalls date_parse (List.filter (concerns ip) calls) tr2 db2) !! ip
    ∧ staysBelow date_parse (List.filter (concerns ip) calls) tr2 = true
    ∧ insert_attempts (runCalls date_parse calls tr1 db1) = []
    ∧ final_store (runCalls date_parse calls tr1 db1) = db1.
Proof.
  induction calls as [|c calls IH]; intros tr1 tr2 db1 db2 Heq Hbelow.
  - done.
  - cbn [staysBelow] in Hbelow. apply andb_prop in Hbelow as [Hc Hrest].
    destruct (step_quiet c tr1 db1 Hc) as (E1 & S1 & A1).
    cbn [runCalls]. rewrite E1, S1, A1. cbn [option_list app].
    cbn [List.filter].
    destruct (concerns ip c) eqn:Hcon.
    + apply concerns_true in Hcon.
      destruct (after_same c tr1 tr2 ip Hcon Heq) as [Hafter Hcount].
      assert (Hc2 : match countOf date_parse c tr2 with
                    | Some count => (count <? THRESHOLD_COUNT)%nat
                    | None => true
                    end = true) by (by rewrite <- Hcount).
      destruct (step_quiet c tr2 db2 Hc2) as (E2 & S2 & A2).
      cbn [runCalls staysBelow]. rewrite E2, S2, Hc2.
      cbn [andb]. by apply IH.
    + apply IH; [|done]. rewrite after_other; [done|].
      intros Hk. apply concerns_true in Hk. congruence.
Qed.

(** X8. Keys do not mix.  While every count recorded during a run of
    calls stays below the threshold, the sequence the tracker holds for
    a key afterwards is the one it would hold had only the calls of
    that key been made, whose counts stay below the threshold as well;
    the run attempts no insert and leaves the store alone. *)
Theorem keys_are_independent
    (ip : string) (calls : list call)
    (tr : gmap string (list Z)) (db : list StoredRule) :
  staysBelow date_parse calls tr = true →
  final_tracker (runCalls date_parse calls tr db) !! ip
  = final_tracker
      (runCalls date_parse (List.filter (concerns ip) calls) tr db) !! ip
  ∧ staysBelow date_parse (List.filter (concerns ip) calls) tr = true
  ∧ insert_attempts (runCalls date_parse calls tr db) = []
  ∧ final_store (runCalls date_parse calls tr db) = db.
Proof. intros Hbelow. by apply runs_agree_on_key. Qed.

End EvidenceFacts.

(** ** [db-functions.js] *)

Section DbFunctionsFacts.

Import RuleEngine DbFunctions Reanalysis.

Variable date_parse : string → option Z.

Lemma manage_true_inv (env : db_env) tr db row prediction jobId now :
  let o := manageDefenseRules date_parse env tr db row prediction jobId now in
  result o = Returns true →
  ∃ ip created,
    sourceKey row = Some ip ∧ rulesFor db ip = []
    ∧ store o = db ++ [{| created_at := db_clock env; rule := created |}]
    ∧ ip_address created = ip ∧ is_active created = true
    ∧ expires_at created = (now + RULE_EXPIRATION_MINUTES * 60 * 1000)%Z.
Proof.
  cbv zeta. unfold manageDefenseRules.
  destruct (sourceKey row) as [ip|]; [|done].
  destruct (flowTime date_parse row) as [ft|]; [|done].
  unfold aggregate. destruct (findsInherited tr ip); [done|].
  unfold record. cbv beta iota zeta.
  destruct (THRESHOLD_COUNT <=? length (recentDetections tr ip ft))%nat; [|done].
  destruct (on_select env); [done | done |].
  destruct (length (selectByIp db ip) =? 0)%nat eqn:Hsel; [|done].
  apply selectByIp_nil in Hsel.
  destruct (on_insert env); [|done|done].
  intros _. by exists ip, {|
    ip_address := ip; threat_type := prediction;
    expires_at := (now + RULE_EXPIRATION_MINUTES * 60 * 1000)%Z;
    is_active := true; analysis_id := jobId;
    raw_flow_data :=
      {| trigger_flow_id := JS.or (JS.get row "flow_id") (JS.Str "N/A");
         threat_count := length (recentDetections tr ip ft) |} |}.
Qed.

Lemma sourceKey_Some (row : JS.object) (ip : string) :
  sourceKey row = Some ip →
  let ipAddress := JS.or (JS.get row "src_ip") (JS.get row "dst_ip") in
  JS.truthy ipAddress = true ∧ ipAddress ≠ JS.Str "UNKNOWN"
  ∧ JS.toPropertyKey ipAddress = ip.
Proof.
  unfold sourceKey. cbv zeta.
  destruct (JS.truthy (JS.or _ _)); simpl; [|done].
  unfold JS.strict_eq. case_bool_decide; [done|]. by intros [= <-].
Qed.

Lemma checkDefenseRule_filter (now : Z) (db : list StoredRule) (key : string) :
  (0 <? length (take 1 (List.filter
                          (λ r, String.eqb (ip_address (rule r)) key
                                && is_active (rule r)
                                && (now <? expires_at (rule r))%Z) db)))%nat
  = true
  ↔ activeRuleOn now db key.
Proof.
  unfold activeRuleOn. rewrite Nat.ltb_lt. split.
  - destruct (List.filter _ db) as [|r l] eqn:Hf; simpl; [lia|]. intros _.
    assert (Hin : In r (List.filter
                          (λ r, String.eqb (ip_address (rule r)) key
                                && is_active (rule r)
                                && (now <? expires_at (rule r))%Z) db))
      by (rewrite Hf; by left).
    apply filter_In in Hin as [Hin Hb].
    apply andb_prop in Hb as [Hb Hexp]. apply andb_prop in Hb as [Hip Hact].
    exists r. split_and!; [by apply list_elem_of_In | | by apply String.eqb_eq].
    unfold activeAt. by rewrite Hact, Hexp.
  - intros (r & Hin & Hact & Hip).
    assert (Hf : In r (List.filter
                         (λ r, String.eqb (ip_address (rule r)) key
                               && is_active (rule r)
                               && (now <? expires_at (rule r))%Z) db)).
    { apply filter_In. split; [by apply list_elem_of_In|].
      unfold activeAt in Hact. apply andb_prop in Hact as [-> ->].
      apply String.eqb_eq in Hip. by rewrite Hip. }
    destruct (List.filter _ db); [done | simpl; lia].
Qed.

Lemma checkDefenseRule_spec
    (read_ok : bool) (now : Z) (db : list StoredRule) (ipAddress : JS.value) :
  checkDefenseRule read_ok now db ipAddress = true
  ↔ JS.truthy ipAddress = true ∧ ipAddress ≠ JS.Str "UNKNOWN"
    ∧ read_ok = true ∧ activeRuleOn now db (JS.toPropertyKey ipAddress).
Proof.
  unfold checkDefenseRule.
  destruct (JS.truthy ipAddress); simpl; [|by split; [|intros (? & _)]].
  unfold JS.strict_eq. case_bool_decide as Hu; [by split; [|intros (_ & ? & _)]|].
  destruct read_ok; [|by split; [|intros (_ & _ & ? & _)]].
  rewrite checkDefenseRule_filter. by split; [|intros (_ & _ & _ & ?)].
Qed.

(** X9. [checkDefenseRule] answers true exactly when the address is
    truthy and not UNKNOWN, the query is served, and the store holds a
    rule for the address with [is_active] set and [expires_at] in the
    future: the same rules that re-analysis reads as active.  A query
    error answers false. *)
Theorem checkDefenseRule_true_iff
    (read_ok : bool) (now : Z) (db : list StoredRule) (ipAddress : JS.value) :
  checkDefenseRule read_ok now db ipAddress = true
  ↔ JS.truthy ipAddress = true ∧ ipAddress ≠ JS.Str "UNKNOWN"
    ∧ read_ok = true ∧ activeRuleOn now db (JS.toPropertyKey ipAddress).
Proof. apply checkDefenseRule_spec. Qed.

(** X10. Insert, then look up.  When [manageDefenseRules] returns true
    at [now], [checkDefenseRule] on the resulting store answers true for
    the address of the row at every instant before
    [now + RULE_EXPIRATION_MINUTES] and false from then on. *)
Theorem created_rule_blocks_until_expiry
    (env : db_env) tr db row prediction jobId (now t : Z) :
  let o := manageDefenseRules date_parse env tr db row prediction jobId now in
  result o = Returns true →
  checkDefenseRule true t (store o)
    (JS.or (JS.get row "src_ip") (JS.get row "dst_ip"))
  = (t <? now + RULE_EXPIRATION_MINUTES * 60 * 1000)%Z.
Proof.
  intros o Htrue. subst o.
  destruct (manage_true_inv env tr db row prediction jobId now Htrue)
    as (ip & created & Hk & Hnone & Hstore & Hip & Hact & Hexp).
  destruct (sourceKey_Some row ip Hk) as (Htruthy & Hunk & Hkey).
  rewrite Hstore. apply eq_true_iff_eq.
  rewrite checkDefenseRule_spec, Z.ltb_lt.
  pose proof (proj1 (rulesFor_nil db ip) Hnone) as Hno.
  unfold activeRuleOn. rewrite Hkey. split.
  - intros (_ & _ & _ & r & Hin & Hr & Hrip).
    apply elem_of_app in Hin as [Hin|Hin]; [by destruct (Hno r Hin)|].
    apply list_elem_of_singleton in Hin as ->.
    unfold activeAt in Hr. simpl in Hr. apply andb_prop in Hr as [_ Hr].
    apply Z.ltb_lt in Hr. lia.
  - intros Hlt. split_and!; [done | done | done |].
    eexists. split_and!; [apply elem_of_app; right; by left | | done].
    unfold activeAt. simpl. rewrite Hact. simpl. apply Z.ltb_lt. lia.
Qed.

(** What the lookup is, read off the literal and the inherited
    members. *)
Lemma table_facts :
  Forall (λ p : string * string,
            p.2 ≠ "" ∧ dbColumnName p.2 = p.2 ∧ dbColumnName p.1 = p.2
            ∧ Forall (λ q : string * string, p.2 = q.2 → p.1 = q.1)
                     lookupTable)
         lookupTable.
Proof. apply (bool_decide_eq_true_1 _). vm_compute. reflexivity. Qed.

Lemma dbColumnName_cases (k : string) :
  ((k ∉ (fst <$> lookupTable)) ∧ dbColumnName k = k)
  ∨ (k, dbColumnName k) ∈ lookupTable.
Proof.
  unfold dbColumnName, lookupTable.
  destruct (list_to_map (M := gmap string string) COLUMN_DB_MAP !! k)
    as [v|] eqn:E.
  - right. apply elem_of_list_to_map_2 in E.
    assert (Hin : (k, v) ∈ COLUMN_DB_MAP ++ JS.prototypeMembers)
      by (apply elem_of_app; by left).
    pose proof table_facts as H. rewrite Forall_forall in H.
    destruct (H _ Hin) as (Hne & _). simpl in Hne.
    apply String.eqb_neq in Hne. by rewrite Hne.
  - destruct (list_to_map (M := gmap string string) JS.prototypeMembers !! k)
      as [text|] eqn:E'.
    + right. apply elem_of_list_to_map_2 in E'. apply elem_of_app. by right.
    + left. split; [|done]. rewrite fmap_app. apply not_elem_of_app.
      split; by apply not_elem_of_list_to_map_2.
Qed.

#[local] Opaque dbColumnName.

Lemma dbColumnName_in_table (k v : string) :
  (k, v) ∈ lookupTable → dbColumnName k = v ∧ dbColumnName v = v.
Proof.
  intros H. pose proof table_facts as Ht. rewrite Forall_forall in Ht.
  destruct (Ht _ H) as (_ & Hv & Hk & _). by split.
Qed.

(** X11. Mapping a column name twice is mapping it once: a row that is
    already in database names is not renamed again. *)
Theorem dbColumnName_idempotent (k : string) :
  dbColumnName (dbColumnName k) = dbColumnName k.
Proof.
  destruct (dbColumnName_cases k) as [[_ E]|H]; [by rewrite E|].
  exact (proj2 (dbColumnName_in_table _ _ H)).
Qed.

Lemma dbColumnName_collide (k1 k2 : string) :
  dbColumnName k1 = dbColumnName k2 →
  k1 = k2 ∨ k2 = dbColumnName k1 ∨ k1 = dbColumnName k2.
Proof.
  intros Heq.
  destruct (dbColumnName_cases k1) as [[_ E1]|H1];
    destruct (dbColumnName_cases k2) as [[_ E2]|H2].
  - left. congruence.
  - right. right. congruence.
  - right. left. congruence.
  - left. pose proof table_facts as Ht. rewrite Forall_forall in Ht.
    destruct (Ht _ H1) as (_ & _ & _ & Hinj). rewrite Forall_forall in Hinj.
    apply (Hinj _ H2 Heq).
Qed.

(** X12. Two different keys are sent to the same column only when one
    of them is the database name of the other. *)
Theorem dbColumnName_collision (k1 k2 : string) :
  dbColumnName k1 = dbColumnName k2 →
  k1 = k2 ∨ k2 = dbColumnName k1 ∨ k1 = dbColumnName k2.
Proof. apply dbColumnName_collide. Qed.

Lemma dbColumnName_outside (c k : string) :
  outsideTable c → dbColumnName k = c → k = c.
Proof.
  intros [Hk Hv] E.
  destruct (dbColumnName_cases k) as [[_ E']|H]; [congruence|].
  exfalso. apply Hv. rewrite E in H.
  apply list_elem_of_fmap. exists (k, c). split; [reflexivity | exact H].
Qed.

Lemma dbColumnName_outside_fix (c : string) :
  outsideTable c → dbColumnName c = c.
Proof.
  intros [Hk Hv]. destruct (dbColumnName_cases c) as [[_ E']|H]; [done|].
  exfalso. apply Hk. apply list_elem_of_fmap.
  exists (c, dbColumnName c). split; [reflexivity | exact H].
Qed.

(** Keys that are sent elsewhere leave a column as it was. *)
Lemma mappedRowFrom_other (keys : list string) (row acc : JS.object) (c : string) :
  (∀ k, k ∈ keys → dbColumnName k ≠ c) →
  fold_left (λ mappedRow key, <[dbColumnName key := JS.get row key]> mappedRow)
            keys acc !! c
  = acc !! c.
Proof.
  revert acc. induction keys as [|k keys IH]; intros acc H; simpl; [done|].
  rewrite IH.
  - apply lookup_insert_ne. apply H. by left.
  - intros k' Hk'. apply H. by right.
Qed.

Lemma mappedRowFrom_last
    (before after : list string) (k : string) (row : JS.object) :
  (∀ k', k' ∈ after → dbColumnName k' ≠ dbColumnName k) →
  mappedRowFrom (before ++ k :: after) row !! dbColumnName k
  = Some (JS.get row k).
Proof.
  intros H. unfold mappedRowFrom. rewrite fold_left_app. simpl.
  rewrite mappedRowFrom_other by exact H. apply lookup_insert_eq.
Qed.

(** X13. A column of the saved row holds the value of the last key, in
    enumeration order, that is sent to it: when a row has a column both
    under its long name and under its database name, the value
    enumerated first is dropped. *)
Theorem mappedRow_last_key_wins
    (before after : list string) (k : string) (row : JS.object) :
  (∀ k', k' ∈ after → dbColumnName k' ≠ dbColumnName k) →
  mappedRowFrom (before ++ k :: after) row !! dbColumnName k
  = Some (JS.get row k).
Proof. apply mappedRowFrom_last. Qed.

Lemma mappedRowFrom_Some (keys : list string) (row : JS.object) (c : string) v :
  mappedRowFrom keys row !! c = Some v →
  ∃ k, k ∈ keys ∧ dbColumnName k = c ∧ JS.get row k = v.
Proof.
  unfold mappedRowFrom.
  assert (H : ∀ acc : JS.object,
    fold_left (λ mappedRow key, <[dbColumnName key := JS.get row key]> mappedRow)
              keys acc !! c = Some v →
    acc !! c = Some v
    ∨ ∃ k, k ∈ keys ∧ dbColumnName k = c ∧ JS.get row k = v).
  { induction keys as [|k keys IH]; intros acc Hl; simpl in Hl; [by left|].
    apply IH in Hl as [Hl|(k' & Hin & Hc & Hv)].
    - destruct (decide (dbColumnName k = c)) as [<-|Hne].
      + rewrite lookup_insert_eq in Hl. injection Hl as <-.
        right. exists k. split_and!; [by left | done | done].
      + rewrite lookup_insert_ne in Hl by done. by left.
    - right. exists k'. split_and!; [by right | done | done]. }
  intros Hl. by apply H in Hl as [?|?].
Qed.

Section WithOwnKeys.

Variable ownKeys : JS.object → list string.

(** X14. A row that holds no column under both its names is saved
    value for value: every value is found under the database name of
    its key, and every value of the saved row comes from such a key. *)
Theorem mappedRow_exact (row : JS.object) :
  enumerates ownKeys row → noShadowedColumn row →
  (∀ k v, row !! k = Some v → mappedRow ownKeys row !! dbColumnName k = Some v)
  ∧ (∀ c v, mappedRow ownKeys row !! c = Some v →
       ∃ k, row !! k = Some v ∧ dbColumnName k = c).
Proof.
  intros [Hnd Henum] Hshadow.
  assert (Hinj : ∀ k1 k2, is_Some (row !! k1) → is_Some (row !! k2) →
                   dbColumnName k1 = dbColumnName k2 → k1 = k2).
  { intros k1 k2 H1 H2 Heq.
    destruct (dbColumnName_collide k1 k2 Heq) as [E|[E|E]]; [exact E| |].
    - destruct (decide (dbColumnName k1 = k1)) as [E1|Hne]; [congruence|].
      pose proof (Hshadow k1 H1 Hne) as Hn. rewrite <- E in Hn.
      destruct H2 as [w Hw]. congruence.
    - destruct (decide (dbColumnName k2 = k2)) as [E2|Hne]; [congruence|].
      pose proof (Hshadow k2 H2 Hne) as Hn. rewrite <- E in Hn.
      destruct H1 as [w Hw]. congruence. }
  split.
  - intros k v Hk.
    assert (Hin : k ∈ ownKeys row) by (apply Henum; eexists; exact Hk).
    apply list_elem_of_split in Hin as (before & after & Hsplit).
    unfold mappedRow. rewrite Hsplit.
    rewrite mappedRowFrom_last.
    + unfold JS.get. rewrite Hk. reflexivity.
    + intros k' Hk' Heq.
      assert (E : k' = k).
      { apply Hinj; [|eexists; exact Hk|exact Heq].
        apply Henum. rewrite Hsplit. apply elem_of_app. right. by right. }
      subst k'. rewrite Hsplit in Hnd.
      apply NoDup_app in Hnd as (_ & _ & Hnd).
      apply NoDup_cons in Hnd as [Hnd _]. exact (Hnd Hk').
  - intros c v Hc. apply mappedRowFrom_Some in Hc as (k & Hin & Hcol & Hv).
    apply Henum in Hin as [w Hw]. exists k. split; [|exact Hcol].
    unfold JS.get in Hv. rewrite Hw in Hv. simpl in Hv. congruence.
Qed.

Lemma mappedRow_unlisted (row : JS.object) (c : string) :
  enumerates ownKeys row → outsideTable c →
  mappedRow ownKeys row !! c = row !! c.
Proof.
  intros [Hnd Henum] Hout.
  pose proof (dbColumnName_outside_fix c Hout) as Hfix.
  destruct (row !! c) as [v|] eqn:Hc.
  - assert (Hin : c ∈ ownKeys row) by (apply Henum; eexists; exact Hc).
    apply list_elem_of_split in Hin as (before & after & Hsplit).
    unfold mappedRow. rewrite Hsplit.
    pose proof (mappedRowFrom_last before after c row) as Hlast.
    rewrite Hfix in Hlast. rewrite Hlast.
    + unfold JS.get. rewrite Hc. reflexivity.
    + intros k' Hk' Heq.
      apply (dbColumnName_outside c k' Hout) in Heq. subst k'.
      rewrite Hsplit in Hnd.
      apply NoDup_app in Hnd as (_ & _ & Hnd).
      apply NoDup_cons in Hnd as [Hnd _]. exact (Hnd Hk').
  - destruct (mappedRow ownKeys row !! c) as [v|] eqn:Hm; [|reflexivity].
    apply mappedRowFrom_Some in Hm as (k & Hin & Hcol & _).
    apply (dbColumnName_outside c k Hout) in Hcol. subst k.
    apply Henum in Hin. rewrite Hc in Hin. destruct Hin as [? [=]].
Qed.

(** X15. Saving does not touch a column that a lookup in the table
    neither finds nor gives, such as [prediction], [analysis_id],
    [src_ip] or [dst_ip]: a column that is no long name and no database
    name of the table, and neither the name nor the text of a member
    inherited from [Object.prototype].  The saved row has it exactly
    when the row has it, with the same value, whatever else the row
    holds. *)
Theorem mappedRow_keeps_unlisted (row : JS.object) (c : string) :
  enumerates ownKeys row → outsideTable c →
  mappedRow ownKeys row !! c = row !! c.
Proof. apply mappedRow_unlisted. Qed.

#[local] Transparent dbColumnName.

Lemma core_columns_outside :
  Forall outsideTable ["prediction"; "analysis_id"; "src_ip"; "dst_ip"].
Proof. apply (bool_decide_eq_true_1 _). vm_compute. reflexivity. Qed.

#[local] Opaque dbColumnName.

Lemma get_mappedRow_core (row : JS.object) (c : string) :
  enumerates ownKeys row →
  c ∈ ["prediction"; "analysis_id"; "src_ip"; "dst_ip"] →
  JS.get (mappedRow ownKeys row) c = JS.get row c.
Proof.
  intros He Hc. unfold JS.get. rewrite mappedRow_unlisted; [done | done |].
  pose proof core_columns_outside as H. rewrite Forall_forall in H. by apply H.
Qed.

Lemma mappedRow_decision (m : gmap string RuleWindow) (row : JS.object) :
  enumerates ownKeys row →
  originalPrediction (mappedRow ownKeys row) = originalPrediction row
  ∧ isBlockedByPolicy date_parse m (mappedRow ownKeys row)
    = isBlockedByPolicy date_parse m row.
Proof.
  intros He.
  assert (Hp : JS.get (mappedRow ownKeys row) "prediction"
               = JS.get row "prediction").
  { apply get_mappedRow_core; [done|]. apply list_elem_of_In; simpl; tauto. }
  assert (Hs : JS.get (mappedRow ownKeys row) "src_ip" = JS.get row "src_ip").
  { apply get_mappedRow_core; [done|]. apply list_elem_of_In; simpl; tauto. }
  assert (Hd : JS.get (mappedRow ownKeys row) "dst_ip" = JS.get row "dst_ip").
  { apply get_mappedRow_core; [done|]. apply list_elem_of_In; simpl; tauto. }
  assert (Ho : originalPrediction (mappedRow ownKeys row)
               = originalPrediction row).
  { unfold originalPrediction. by rewrite Hp. }
  split; [done|]. unfold isBlockedByPolicy. by rewrite Ho, Hs, Hd.
Qed.

(** X16. What re-analysis decides on a saved row is what it decides on
    the row as it was before saving: the saved row has the same
    prediction and the same two addresses, so the same label and the
    same policy test, whatever rules are active. *)
Theorem saving_preserves_decision
    (m : gmap string RuleWindow) (row : JS.object) :
  enumerates ownKeys row →
  JS.get (mappedRow ownKeys row) "prediction" = JS.get row "prediction"
  ∧ originalPrediction (mappedRow ownKeys row) = originalPrediction row
  ∧ isBlockedByPolicy date_parse m (mappedRow ownKeys row)
    = isBlockedByPolicy date_parse m row.
Proof.
  intros He. destruct (mappedRow_decision m row He) as [H1 H2].
  split_and!; [|done|done]. apply get_mappedRow_core; [done|]. apply list_elem_of_In; simpl; tauto.
Qed.






End WithOwnKeys.

#[local] Transparent dbColumnName.

End DbFunctionsFacts.

(** ** The ingestion loops *)

Section IngestMoreFacts.

Import Batch Ingest Replies.

Variable gateway : nat → list JS.object → gateway_reply.

Lemma labelAt_truthy (predictions : list JS.value) (index : nat) :
  JS.truthy (labelAt predictions index) = true.
Proof.
  unfold labelAt, JS.or.
  by destruct (JS.truthy (default JS.Undefined (predictions !! index))) eqn:E.
Qed.

Lemma labelRow_shape (predictions : list JS.value) jobId index row :
  let r := (labelRow predictions jobId index row).1 in
  let sub := (labelRow predictions jobId index row).2 in
  JS.get r "analysis_id" = JS.Str jobId
  ∧ JS.truthy (JS.get r "prediction") = true
  ∧ (∀ k, k ≠ "prediction" → k ≠ "analysis_id" → r !! k = row !! k)
  ∧ sub = if malicious (JS.get r "prediction")
          then Some {| s_row := row; s_prediction := JS.get r "prediction";
                       s_jobId := jobId |}
          else None.
Proof.
  unfold labelRow. cbn [DIAGNOSTIC_FORCE_ATTACK andb fst snd].
  rewrite get_insert_eq, get_insert_ne by done. rewrite get_insert_eq.
  split_and!; [done | apply labelAt_truthy | | done].
  intros k H1 H2. by rewrite !lookup_insert_ne.
Qed.

Lemma errorRow_shape jobId row :
  JS.get (errorRow jobId row) "analysis_id" = JS.Str jobId
  ∧ JS.get (errorRow jobId row) "prediction" = JS.Str "Error"
  ∧ (∀ k, k ≠ "prediction" → k ≠ "analysis_id" →
       errorRow jobId row !! k = row !! k).
Proof.
  unfold errorRow. rewrite get_insert_eq, get_insert_ne by done.
  rewrite get_insert_eq. split_and!; [done | done |].
  intros k H1 H2. by rewrite !lookup_insert_ne.
Qed.

Lemma ingest_shape (strip : JS.object → JS.object) jobId (rows : list JS.object) :
  length (ingest gateway strip jobId rows) = length rows
  ∧ ∀ j row, rows !! j = Some row →
      ∃ r sub,
        ingest gateway strip jobId rows !! j = Some (r, sub)
        ∧ JS.get r "analysis_id" = JS.Str jobId
        ∧ JS.truthy (JS.get r "prediction") = true
        ∧ (∀ k, k ≠ "prediction" → k ≠ "analysis_id" → r !! k = row !! k)
        ∧ sub = if malicious (JS.get r "prediction")
                then Some {| s_row := row;
                             s_prediction := JS.get r "prediction";
                             s_jobId := jobId |}
                else None.
Proof.
  rewrite ingest_imap. split; [apply length_imap|].
  intros j row Hj. rewrite list_lookup_imap, Hj. simpl.
  unfold labelledAt. destruct (gateway _ _) as [|[predictions|]].
  - destruct (errorRow_shape jobId row) as (H1 & H2 & H3).
    do 2 eexists. split; [done|]. rewrite H2. by split_and!.
  - destruct (labelRow_shape predictions jobId (j mod BATCH_SIZE) row)
      as (H1 & H2 & H3 & H4).
    exists (labelRow predictions jobId (j mod BATCH_SIZE) row).1,
           (labelRow predictions jobId (j mod BATCH_SIZE) row).2.
    split; [by rewrite <- surjective_pairing|]. by split_and!.
  - destruct (errorRow_shape jobId row) as (H1 & H2 & H3).
    do 2 eexists. split; [done|]. rewrite H2. by split_and!.
Qed.

(** X18. Both ingestion loops give one labelled row per input row, in
    order: the input row with the job id as [analysis_id], a truthy
    [prediction], and every other field as it was. *)
Theorem ingest_keeps_every_row (jobId : string) (rows : list JS.object) :
  (length (analyzeCsv gateway jobId rows) = length rows
   ∧ ∀ j row, rows !! j = Some row →
       ∃ r sub,
         analyzeCsv gateway jobId rows !! j = Some (r, sub)
         ∧ JS.get r "analysis_id" = JS.Str jobId
         ∧ JS.truthy (JS.get r "prediction") = true
         ∧ ∀ k, k ≠ "prediction" → k ≠ "analysis_id" → r !! k = row !! k)
  ∧ (length (analyzeApi gateway jobId rows) = length rows
     ∧ ∀ j row, rows !! j = Some row →
         ∃ r sub,
           analyzeApi gateway jobId rows !! j = Some (r, sub)
           ∧ JS.get r "analysis_id" = JS.Str jobId
           ∧ JS.truthy (JS.get r "prediction") = true
           ∧ ∀ k, k ≠ "prediction" → k ≠ "analysis_id" → r !! k = row !! k).
Proof.
  split.
  - destruct (ingest_shape stripCsv jobId rows) as [Hlen Hrows].
    split; [exact Hlen|]. intros j row Hj.
    destruct (Hrows j row Hj) as (r & sub & H0 & H1 & H2 & H3 & _).
    exists r, sub. by split_and!.
  - destruct (ingest_shape stripApi jobId rows) as [Hlen Hrows].
    split; [exact Hlen|]. intros j row Hj.
    destruct (Hrows j row Hj) as (r & sub & H0 & H1 & H2 & H3 & _).
    exists r, sub. by split_and!.
Qed.

(** X19. A rule evaluation is started for a row exactly when its
    prediction is neither the string "benign" nor the string "Error",
    compared as written (so for "Benign" or "error" too), and then with
    the input row, that prediction and the job id. *)
Theorem submission_iff_label_malicious
    (jobId : string) (rows : list JS.object) (j : nat)
    (r : JS.object) (sub : option submission) :
  analyzeCsv gateway jobId rows !! j = Some (r, sub)
  ∨ analyzeApi gateway jobId rows !! j = Some (r, sub) →
  ∃ row, rows !! j = Some row
    ∧ (sub = None
       ↔ JS.get r "prediction" = JS.Str "benign"
         ∨ JS.get r "prediction" = JS.Str "Error")
    ∧ ∀ s, sub = Some s →
        s = {| s_row := row; s_prediction := JS.get r "prediction";
               s_jobId := jobId |}.
Proof.
  assert (H : ∀ strip, ingest gateway strip jobId rows !! j = Some (r, sub) →
    ∃ row, rows !! j = Some row
      ∧ (sub = None
         ↔ JS.get r "prediction" = JS.Str "benign"
           ∨ JS.get r "prediction" = JS.Str "Error")
      ∧ ∀ s, sub = Some s →
          s = {| s_row := row; s_prediction := JS.get r "prediction";
                 s_jobId := jobId |}).
  { intros strip Hout.
    destruct (ingest_shape strip jobId rows) as [Hlen Hrows].
    assert (Hlt : (j < length rows)%nat).
    { rewrite <- Hlen. by apply lookup_lt_Some in Hout. }
    apply lookup_lt_is_Some_2 in Hlt as [row Hrow].
    destruct (Hrows j row Hrow) as (r' & sub' & H0 & _ & _ & _ & Hsub).
    rewrite Hout in H0. injection H0 as <- <-.
    exists row. split; [done|]. rewrite Hsub. unfold malicious.
    unfold JS.strict_ne, JS.strict_eq.
    repeat case_bool_decide; simpl; split; try done;
      try (split; [intros _; by eauto | done]);
      try (intros s [= <-]; done).
    split; [done|]. by intros [?|?]. }
  intros [Hc|Ha]; [by apply (H stripCsv) | by apply (H stripApi)].
Qed.

(** X20. A batch whose gateway call fails is isolated: each of its rows
    is labelled "Error" and starts no rule evaluation, in both loops. *)
Theorem failed_ingest_batch_is_Error
    (jobId : string) (rows : list JS.object) (i k : nat) (row : JS.object) :
  (i mod BATCH_SIZE = 0)%nat → (k < BATCH_SIZE)%nat →
  rows !! (i + k)%nat = Some row →
  (unusable (gateway i (map stripCsv (slice rows i (i + BATCH_SIZE)))) →
   analyzeCsv gateway jobId rows !! (i + k)%nat
   = Some (errorRow jobId row, None))
  ∧ (unusable (gateway i (map stripApi (slice rows i (i + BATCH_SIZE)))) →
     analyzeApi gateway jobId rows !! (i + k)%nat
     = Some (errorRow jobId row, None)).
Proof.
  intros Hi Hk Hrow.
  destruct (batch_position BATCH_SIZE i k Hi Hk) as [E1 E2].
  split; intros Hfail; unfold analyzeCsv, analyzeApi;
    rewrite ingest_imap, list_lookup_imap, Hrow; simpl;
    unfold labelledAt; rewrite E2;
    by destruct (gateway i _) as [|[predictions|]].
Qed.

End IngestMoreFacts.

(** ** From ingestion to re-analysis *)

Section EndToEndFacts.

Import Batch Ingest DbFunctions Reanalysis.

Variable date_parse : string → option Z.
Variable gateway : nat → list JS.object → gateway_reply.
Variable ownKeys : JS.object → list string.
Hypothesis ownKeys_enumerates : ∀ row, enumerates ownKeys row.



End EndToEndFacts.

(** ** The blocked-flows summary *)

Section BreakdownFacts.

Import Transformer Breakdown Reanalysis.

Lemma ownValue_assign (k name : string) (v : tallied)
    (acc : list (string * tallied)) :
  ownValue name (assign k v acc)
  = if String.eqb k name then Some v else ownValue name acc.
Proof.
  induction acc as [|[k' v'] acc IH]; simpl; [done|].
  destruct (String.eqb_spec k' k) as [->|Hne]; simpl.
  - by destruct (String.eqb k name).
  - rewrite IH. destruct (String.eqb_spec k' name) as [->|Hne'];
      [|done].
    destruct (String.eqb_spec k name) as [->|_]; [by destruct Hne | done].
Qed.

Lemma assign_names (k : string) (v : tallied) (acc : list (string * tallied)) :
  NoDup (fst <$> acc) →
  NoDup (fst <$> assign k v acc)
  ∧ ∀ name, name ∈ (fst <$> assign k v acc) ↔ name = k ∨ name ∈ (fst <$> acc).
Proof.
  induction acc as [|[k' v'] acc IH]; simpl; intros Hnd.
  - split.
    + apply NoDup_singleton.
    + intros name. rewrite list_elem_of_singleton. split; [by left|].
      intros [?|H]; [done | inversion H].
  - apply NoDup_cons in Hnd as [Hk' Hnd].
    destruct (IH Hnd) as (IH1 & IH2).
    destruct (String.eqb_spec k' k) as [->|Hne]; simpl.
    + split; [by apply NoDup_cons|].
      intros name. rewrite !elem_of_cons. tauto.
    + split.
      * apply NoDup_cons. split; [|done]. rewrite IH2. tauto.
      * intros name. rewrite !elem_of_cons, IH2. tauto.
Qed.

(** The own properties, read as a list of pairs. *)
Lemma ownValue_None (name : string) (acc : list (string * tallied)) :
  ownValue name acc = None ↔ name ∉ (fst <$> acc).
Proof.
  induction acc as [|[k v] acc IH]; simpl.
  - split; [intros _ H; inversion H | done].
  - rewrite not_elem_of_cons, <- IH.
    destruct (String.eqb_spec k name) as [->|Hne].
    + split; [done | by intros [? _]].
    + split; [intros H; split; [congruence | done] | by intros [_ ?]].
Qed.

Lemma ownValue_Some (name : string) (v : tallied) (acc : list (string * tallied)) :
  ownValue name acc = Some v → (name, v) ∈ acc.
Proof.
  induction acc as [|[k w] acc IH]; simpl; [done|].
  destruct (String.eqb_spec k name) as [->|Hne].
  - intros [= ->]. by left.
  - intros H. right. by apply IH.
Qed.

Lemma ownValue_elem (name : string) (v : tallied) (acc : list (string * tallied)) :
  NoDup (fst <$> acc) → (name, v) ∈ acc → ownValue name acc = Some v.
Proof.
  induction acc as [|[k w] acc IH]; simpl; intros Hnd Hin; [inversion Hin|].
  apply NoDup_cons in Hnd as [Hk Hnd].
  apply elem_of_cons in Hin as [[= <- <-]|Hin].
  - by rewrite String.eqb_refl.
  - destruct (String.eqb_spec k name) as [->|Hne]; [|by apply IH].
    destruct Hk. apply list_elem_of_fmap. by exists (name, v).
Qed.

Lemma insertByIndex_perm {A} (p : N * A) (l : list (N * A)) :
  insertByIndex p l ≡ₚ p :: l.
Proof.
  induction l as [|q l IH]; simpl; [done|].
  destruct (p.1 <? q.1)%N; [done|].
  rewrite IH. apply perm_swap.
Qed.

(** [Object.entries] lists every own property once. *)
Lemma entries_perm {A} (acc : list (string * A)) : entries acc ≡ₚ acc.
Proof.
  unfold entries. induction acc as [|e acc IH]; simpl; [done|].
  destruct (arrayIndex e.1) as [i|] eqn:E; simpl.
  - rewrite ?bool_decide_eq_false_2 by done.
    rewrite insertByIndex_perm. simpl. by rewrite IH.
  - rewrite ?bool_decide_eq_true_2 by done.
    rewrite <- Permutation_middle. by rewrite IH.
Qed.

(** A name that is not inherited finds its own property or nothing. *)
Lemma valueAt_own (k : string) (acc : list (string * tallied)) :
  JS.inherited k = false → valueAt k acc = ownValue k acc.
Proof.
  intros H. unfold valueAt. destruct (ownValue k acc); [done|].
  rewrite (not_elem_of_list_to_map_1 (M := gmap string)); [done|].
  by apply bool_decide_eq_false_1 in H.
Qed.

(** The accumulator holds a count of at least 1 under every name that
    is not inherited. *)
Definition counts (acc : list (string * tallied)) : Prop :=
  NoDup (fst <$> acc)
  ∧ ∀ name v, ownValue name acc = Some v →
      JS.inherited name = true ∨ ∃ n, v = Count (S n).

Definition counted (name : string) (acc : list (string * tallied)) : nat :=
  match ownValue name acc with
  | Some (Count n) => n
  | _ => 0%nat
  end.

Lemma bump_counts (k : string) (acc : list (string * tallied)) :
  counts acc →
  counts (bump k acc)
  ∧ ∀ name, JS.inherited name = false →
      counted name (bump k acc)
      = (counted name acc + if String.eqb k name then 1 else 0)%nat.
Proof.
  intros [Hnd Hval]. unfold bump.
  destruct (String.eqb_spec k "__proto__") as [->|Hproto].
  - split; [by split|]. intros name Hname.
    destruct (String.eqb_spec "__proto__" name) as [<-|_]; [done | lia].
  - destruct (assign_names k (plusOne (valueAt k acc)) acc Hnd) as [Hnd' _].
    assert (Hnew : JS.inherited k = false →
              plusOne (valueAt k acc) = Count (S (counted k acc))).
    { intros Hk. rewrite valueAt_own by done. unfold counted.
      destruct (ownValue k acc) as [v|] eqn:E; [|done].
      destruct (Hval k v E) as [?|[n ->]]; [congruence | done]. }
    split; [split; [done|]|].
    + intros name v. rewrite ownValue_assign.
      destruct (String.eqb_spec k name) as [->|Hne]; [|apply Hval].
      intros [= <-]. destruct (JS.inherited name) eqn:Hi; [by left|].
      right. rewrite Hnew by done. eauto.
    + intros name Hname. unfold counted at 1. rewrite ownValue_assign.
      destruct (String.eqb_spec k name) as [->|Hne].
      * rewrite Hnew by done. lia.
      * unfold counted. lia.
Qed.

Lemma breakdown_fold (rows : list JS.object) (acc : list (string * tallied)) :
  let result :=
    fold_left (λ acc row, bump (blockedLabel row) acc) rows acc in
  counts acc →
  counts result
  ∧ ∀ name, JS.inherited name = false →
      counted name result = (counted name acc + labelled name rows)%nat.
Proof.
  revert acc. induction rows as [|row rows IH]; intros acc; simpl.
  - intros Hc. split; [done|]. intros name _. unfold labelled. simpl. lia.
  - intros Hc.
    destruct (bump_counts (blockedLabel row) acc Hc) as [Hc' Hn].
    destruct (IH (bump (blockedLabel row) acc) Hc') as [I1 I2].
    split; [done|]. intros name Hname.
    rewrite (I2 name Hname), (Hn name Hname). unfold labelled. simpl.
    destruct (String.eqb (blockedLabel row) name); simpl; lia.
Qed.

(** X22. The blocked-flows summary counts every blocked row once, under
    the name of its [original_prediction], else of its [prediction],
    else "Unknown Block".  The names of the breakdown are distinct; a
    name that is not the name of a member inherited from
    [Object.prototype] is listed exactly when a row has it, with the
    number of such rows; an entry that is not a count of at least 1 has
    an inherited name; and the sample holds the first five rows, or all
    of them when fewer. *)
Theorem blocked_summary_counts_each_row (blockedRows : list JS.object) :
  let summary := transformBlockedData blockedRows in
  blockedCount summary = length blockedRows
  ∧ NoDup (fst <$> threatBreakdown summary)
  ∧ (∀ name, JS.inherited name = false →
       (labelled name blockedRows = 0%nat →
        name ∉ (fst <$> threatBreakdown summary))
       ∧ (labelled name blockedRows ≠ 0%nat →
          (name, Count (labelled name blockedRows)) ∈ threatBreakdown summary))
  ∧ (∀ name v, (name, v) ∈ threatBreakdown summary →
       JS.inherited name = true ∨ ∃ n, v = Count (S n))
  ∧ length (recentFlows summary) = Nat.min 5 (length blockedRows)
  ∧ ∀ j view, recentFlows summary !! j = Some view →
      ∃ row, blockedRows !! j = Some row ∧ type view = JS.get row "prediction".
Proof.
  cbv zeta.
  assert (E : threatBreakdown (transformBlockedData blockedRows)
              = entries (fold_left (λ acc row, bump (blockedLabel row) acc)
                                   blockedRows [])) by reflexivity.
  rewrite E. clear E.
  unfold transformBlockedData. cbn [blockedCount recentFlows].
  destruct (breakdown_fold blockedRows []) as ([Hnd Hval] & Hcount).
  { split; [apply NoDup_nil_2 | done]. }
  set (acc := fold_left (λ acc row, bump (blockedLabel row) acc)
                        blockedRows []) in *.
  pose proof (entries_perm acc) as Hperm.
  split_and!.
  - done.
  - by rewrite Hperm.
  - intros name Hname. specialize (Hcount name Hname).
    unfold counted in Hcount. simpl in Hcount. rewrite Hperm.
    destruct (ownValue name acc) as [v|] eqn:Hv.
    + destruct (Hval name v Hv) as [?|[n ->]]; [congruence|].
      split; [intros H0; rewrite <- Hcount in H0; lia|].
      intros _. rewrite <- Hcount. by apply ownValue_Some.
    + split; [intros _; by apply ownValue_None | intros Hn; lia].
  - intros name v Hin. rewrite Hperm in Hin. apply (Hval name v).
    by apply ownValue_elem.
  - rewrite length_map, length_take. lia.
  - intros j view Hj. rewrite list_lookup_fmap in Hj.
    destruct (take 5 blockedRows !! j) as [row|] eqn:Hrow; [|done].
    injection Hj as <-. apply lookup_take_Some in Hrow as [Hrow _].
    by exists row.
Qed.

End BreakdownFacts.

(** ** Answers of [/reanalyze/rules] and what the client shows *)

Section AnswerFacts.

Import Batch Transformer Breakdown Reanalysis Client.

Variable date_parse : string → option Z.
Variable gateway : nat → list JS.object → gateway_reply.
Variable Dashboard : Type.
Variable transformPredictionData : list JS.object → option Dashboard.
Variable percentage : Z → Z → string.

Lemma filterRows_Some_labelled (m : gmap string RuleWindow)
    (hist adm blk : list JS.object) (p : list JS.object * list JS.object) :
  filterRows date_parse m hist adm blk = Some p →
  Forall (λ row, is_Some (originalPrediction row)) hist.
Proof.
  revert adm blk. induction hist as [|row hist IH]; intros adm blk H; [done|].
  simpl in H.
  destruct (isBlockedByPolicy date_parse m row) as [b|] eqn:Hb; [|done].
  constructor.
  - unfold isBlockedByPolicy in Hb.
    destruct (originalPrediction row); [eauto | done].
  - destruct b; eapply IH; exact H.
Qed.

Lemma filterRows_None (m : gmap string RuleWindow) (hist : list JS.object) :
  filterRows date_parse m hist [] [] = None
  ↔ Exists (λ row, originalPrediction row = None) hist.
Proof.
  split.
  - intros Hnone.
    destruct (decide (Forall (λ row, is_Some (originalPrediction row)) hist))
      as [Hall|Hnot].
    + rewrite filterRows_spec in Hnone by done. done.
    + apply not_Forall_Exists in Hnot; [|apply _].
      eapply Exists_impl; [exact Hnot|]. intros row Hrow. simpl in Hrow.
      destruct (originalPrediction row); [|done]. destruct Hrow. eauto.
  - intros Hex.
    destruct (filterRows date_parse m hist [] []) as [p|] eqn:Hf; [|done].
    apply filterRows_Some_labelled in Hf. exfalso.
    apply Exists_exists in Hex as (row & Hin & Hrow).
    rewrite Forall_forall in Hf. destruct (Hf row Hin) as [l Hl]. congruence.
Qed.

Lemma filterRows_result (m : gmap string RuleWindow)
    (hist adm blk : list JS.object) :
  filterRows date_parse m hist [] [] = Some (adm, blk) →
  adm = List.filter (λ r, negb (blocks date_parse m r)) hist
  ∧ blk = map markBlocked (List.filter (blocks date_parse m) hist)
  ∧ (length adm + length blk = length hist)%nat.
Proof.
  intros H. pose proof (filterRows_Some_labelled m hist [] [] _ H) as Hall.
  rewrite filterRows_spec in H by done. injection H as <- <-.
  split_and!; [done | done |]. simpl. rewrite length_map.
  pose proof (filter_length (blocks date_parse m) hist). lia.
Qed.

Lemma blockedLabel_marked (row : JS.object) :
  JS.truthy (JS.get row "original_prediction") = false →
  blockedLabel (markBlocked row) = "Rule_Blocked_Historical".
Proof.
  intros H. unfold blockedLabel, markBlocked, JS.or.
  rewrite get_insert_ne by done. rewrite H.
  by rewrite get_insert_eq.
Qed.

Lemma fold_bump_marker (rows : list JS.object) (n : nat) :
  Forall (λ row, blockedLabel row = "Rule_Blocked_Historical") rows →
  fold_left (λ acc row, bump (blockedLabel row) acc) rows
            [("Rule_Blocked_Historical", Count n)]
  = [("Rule_Blocked_Historical", Count (n + length rows))].
Proof.
  intros H. revert n. induction H as [|row rows Hrow _ IH]; intros n; simpl.
  - by rewrite Nat.add_0_r.
  - rewrite Hrow.
    change (bump "Rule_Blocked_Historical"
              [("Rule_Blocked_Historical", Count n)])
      with [("Rule_Blocked_Historical", Count (S n))].
    rewrite IH. do 3 f_equal. lia.
Qed.

(** X23. The summary of the flows that step 4 blocks has one name only.
    When no stored flow carries a truthy [original_prediction], the
    breakdown of the blocked flows is the single entry
    "Rule_Blocked_Historical" with the number of blocked flows (and is
    empty when none is blocked), and every sampled flow has that type:
    the labels the flows had are not in the summary. *)
Theorem blocked_breakdown_is_the_marker
    (m : gmap string RuleWindow) (hist adm blk : list JS.object) :
  filterRows date_parse m hist [] [] = Some (adm, blk) →
  (∀ r, r ∈ hist → JS.truthy (JS.get r "original_prediction") = false) →
  threatBreakdown (transformBlockedData blk)
  = match blk with
    | [] => []
    | _ :: _ => [("Rule_Blocked_Historical", Count (length blk))]
    end
  ∧ Forall (λ view, type view = JS.Str "Rule_Blocked_Historical")
           (recentFlows (transformBlockedData blk)).
Proof.
  intros Hf Horig. apply filterRows_result in Hf as (_ & Hblk & _).
  assert (Hlab : Forall (λ row, blockedLabel row = "Rule_Blocked_Historical") blk).
  { rewrite Hblk. apply Forall_fmap, Forall_forall. intros r Hr. simpl.
    apply blockedLabel_marked, Horig.
    apply list_elem_of_In, filter_In in Hr as [Hr _]. by apply list_elem_of_In. }
  assert (Hpred : Forall (λ row, JS.get row "prediction"
                                 = JS.Str "Rule_Blocked_Historical") blk).
  { rewrite Hblk. apply Forall_fmap, Forall_forall. intros r _. simpl.
    unfold markBlocked. apply get_insert_eq. }
  split.
  - assert (E : threatBreakdown (transformBlockedData blk)
                = entries
                    (fold_left (λ acc row, bump (blockedLabel row) acc) blk []))
      by reflexivity.
    rewrite E. clear Hblk Hpred E. destruct Hlab as [|row rows Hrow Hrows]; [done|].
    cbn [fold_left]. rewrite Hrow.
    change (bump "Rule_Blocked_Historical" [])
      with [("Rule_Blocked_Historical", Count 1)].
    by rewrite fold_bump_marker.
  - unfold transformBlockedData. cbn [recentFlows].
    apply Forall_fmap, Forall_forall. intros row Hrow. simpl.
    rewrite Forall_forall in Hpred. apply Hpred.
    by apply (subseteq_take 5 blk).
Qed.

(** The empty map finds the inherited members only. *)
Lemma blocks_empty (row : JS.object) :
  JS.inherited (JS.toPropertyKey (JS.get row "src_ip")) = false →
  JS.inherited (JS.toPropertyKey (JS.get row "dst_ip")) = false →
  blocks date_parse (∅ : gmap string RuleWindow) row = false.
Proof.
  intros Hs Hd. unfold blocks. apply bool_decide_eq_false_2.
  unfold isBlockedByPolicy. destruct (originalPrediction row); [|done].
  unfold finds. rewrite !lookup_empty, Hs, Hd. simpl. done.
Qed.

Lemma filter_all_true_on {X} (p : X → bool) (l : list X) :
  (∀ x, x ∈ l → p x = true) → List.filter p l = l.
Proof.
  intros H. induction l as [|x l IH]; simpl; [done|].
  rewrite H by (by left). f_equal. apply IH. intros y Hy. apply H. by right.
Qed.

Lemma filter_all_true {X} (p : X → bool) (l : list X) :
  (∀ x, p x = true) → List.filter p l = l.
Proof. intros H. induction l as [|x l IH]; simpl; [done|]. by rewrite H, IH. Qed.

Lemma filter_all_false {X} (p : X → bool) (l : list X) :
  (∀ x, p x = false) → List.filter p l = [].
Proof. intros H. induction l as [|x l IH]; simpl; [done|]. by rewrite H. Qed.

Lemma filter_all_false_on {X} (p : X → bool) (l : list X) :
  (∀ x, x ∈ l → p x = false) → List.filter p l = [].
Proof.
  intros H. induction l as [|x l IH]; simpl; [done|].
  rewrite H by (by left). apply IH. intros y Hy. apply H. by right.
Qed.

(** X24. Without active rules only the inherited members block.  When
    the read of the rules fails, or no stored rule is active now (all
    expired or switched off), and no stored flow has an address that
    names a member inherited from [Object.prototype], every stored flow
    is admitted, and the report counts as many re-analysed flows as
    original ones, with an empty blocked summary. *)
Theorem without_active_rules_nothing_blocked (w : world) (id : JS.value)
    (hist : list JS.object) (d : Dashboard) :
  JS.truthy id = true →
  rules_read_ok w = false
  ∨ (∀ r, r ∈ defense_rules w → RuleEngine.activeAt (now w) r = false) →
  getAnalysisResultsByJobId (flows_read_ok w) (analysis_results w) id
  = Some hist →
  hist ≠ [] →
  Forall (λ row, is_Some (originalPrediction row)) hist →
  Forall (λ row,
            JS.inherited (JS.toPropertyKey (JS.get row "src_ip")) = false
            ∧ JS.inherited (JS.toPropertyKey (JS.get row "dst_ip")) = false)
         hist →
  transformPredictionData (rePredict gateway hist) = Some d →
  filterRows date_parse
    (buildBlockedIpMap
       (selectActiveRules (rules_read_ok w) (now w) (defense_rules w)))
    hist [] [] = Some (hist, [])
  ∧ reanalyzeRules date_parse gateway Dashboard transformPredictionData w id
    = Reanalyzed
        {| finalDashboardData := d; r_analysis_id := id;
           original_flow_count := length hist;
           reanalyzed_flow_count := length hist;
           blockedData := {| blockedCount := 0; threatBreakdown := [];
                             recentFlows := [] |} |}.
Proof.
  intros Hid Hrules Hflows Hne Hall Haddr Hd.
  assert (Hmap : buildBlockedIpMap
                   (selectActiveRules (rules_read_ok w) (now w) (defense_rules w))
                 = ∅).
  { unfold selectActiveRules. destruct Hrules as [-> | Hnone]; [done|].
    destruct (rules_read_ok w); [|done].
    rewrite filter_all_false_on; [done|]. exact Hnone. }
  assert (Hnot : ∀ r, r ∈ hist → blocks date_parse ∅ r = false).
  { intros r Hr. rewrite Forall_forall in Haddr.
    destruct (Haddr r Hr) as [Hs Hd']. by apply blocks_empty. }
  assert (Hpart : filterRows date_parse ∅ hist [] [] = Some (hist, [])).
  { rewrite filterRows_spec by done.
    rewrite (filter_all_true_on (λ r, negb (blocks date_parse ∅ r)))
      by (intros x Hx; by rewrite Hnot).
    rewrite (filter_all_false_on (blocks date_parse ∅)) by exact Hnot.
    done. }
  rewrite Hmap. split; [done|].
  unfold reanalyzeRules. rewrite Hid, Hflows, Hmap. cbn [negb].
  destruct hist as [|row hist]; [done|]. rewrite Hpart.
  cbn [length Nat.eqb]. rewrite Hd, length_rePredict. done.
Qed.

(** X25. The answer is a server error exactly when the job has stored
    flows and either some stored flow has a truthy prediction that is
    not a string, or flows are admitted and the dashboard summary
    throws; with flows stored, nothing else makes the request fail. *)
Theorem server_error_iff (w : world) (id : JS.value) :
  JS.truthy id = true →
  let m :=
    buildBlockedIpMap
      (selectActiveRules (rules_read_ok w) (now w) (defense_rules w)) in
  reanalyzeRules date_parse gateway Dashboard transformPredictionData w id
  = ServerError
  ↔ ∃ hist,
      getAnalysisResultsByJobId (flows_read_ok w) (analysis_results w) id
      = Some hist
      ∧ hist ≠ []
      ∧ (Exists (λ row, originalPrediction row = None) hist
         ∨ ∃ adm blk,
             filterRows date_parse m hist [] [] = Some (adm, blk)
             ∧ adm ≠ []
             ∧ transformPredictionData (rePredict gateway adm) = None).
Proof.
  intros Hid m. unfold reanalyzeRules. rewrite Hid. cbn [negb]. fold m.
  destruct (getAnalysisResultsByJobId _ _ _) as [[|row hist]|].
  - split; [done|]. by intros (h & [= <-] & ? & _).
  - destruct (filterRows date_parse m (row :: hist) [] []) as [[adm blk]|] eqn:Hf.
    + destruct adm as [|a adm]; cbn [length Nat.eqb].
      * split; [done|]. intros (h & [= <-] & _ & [Hex|(adm' & blk' & Hf' & Hne & _)]).
        -- apply (filterRows_None m) in Hex. congruence.
        -- rewrite Hf in Hf'. by injection Hf' as <- <-.
      * destruct (transformPredictionData (rePredict gateway (a :: adm)))
          as [d|] eqn:Hd.
        -- split; [done|].
           intros (h & [= <-] & _ & [Hex|(adm' & blk' & Hf' & _ & Hnone)]).
           ++ apply (filterRows_None m) in Hex. congruence.
           ++ rewrite Hf in Hf'. injection Hf' as <- <-. congruence.
        -- split; [|done]. intros _. exists (row :: hist).
           split_and!; [done | done |]. right. by exists (a :: adm), blk.
    + split; [|done]. intros _. exists (row :: hist).
      split_and!; [done | done |]. left.
      exact (proj1 (filterRows_None m (row :: hist)) Hf).
  - split; [done|]. by intros (h & ? & _).
Qed.

(** X26. What the client shows agrees with the report: the blocked
    count it computes as original minus re-analysed is the number of
    blocked flows of the blocked summary, and the original count is the
    number of stored flows.  For a job whose flows are all blocked the
    client shows counts of 0 and no blocked summary. *)
Theorem client_counts_match_report (w : world) (id : JS.value) :
  let answer :=
    reanalyzeRules date_parse gateway Dashboard transformPredictionData w id in
  let shown := reanalyzeOnBackend percentage answer in
  (∀ body, answer = Reanalyzed body →
     ∃ counts,
       shown = Shown (Some (finalDashboardData body)) (Some (blockedData body))
                     counts
       ∧ blocked counts = Z.of_nat (blockedCount (blockedData body))
       ∧ original counts = (reanalyzed counts + blocked counts)%Z
       ∧ (0 < reanalyzed counts)%Z
       ∧ getAnalysisResultsByJobId (flows_read_ok w) (analysis_results w) id
         ≠ None
       ∧ ∀ hist,
           getAnalysisResultsByJobId (flows_read_ok w) (analysis_results w) id
           = Some hist →
           original counts = Z.of_nat (length hist))
  ∧ (∀ id', answer = AllFiltered id' →
       shown = Shown None None
                 {| original := 0; reanalyzed := 0; blocked := 0;
                    blockedPercentage := JS.Num 0 |}
       ∧ ∃ hist,
           getAnalysisResultsByJobId (flows_read_ok w) (analysis_results w) id
           = Some hist
           ∧ hist ≠ []).
Proof.
  cbv zeta. unfold reanalyzeRules.
  destruct (negb (JS.truthy id)); [by split|].
  destruct (getAnalysisResultsByJobId _ _ _) as [[|row hist]|];
    [by split | | by split].
  destruct (filterRows date_parse _ (row :: hist) [] []) as [[adm blk]|] eqn:Hf;
    [|by split].
  apply filterRows_result in Hf as (_ & _ & Hlen).
  destruct adm as [|a adm]; cbn [length Nat.eqb] in *.
  - split; [done|]. intros id' _. split; [done|]. by exists (row :: hist).
  - destruct (transformPredictionData (rePredict gateway (a :: adm))) as [d|];
      [|by split].
    split; [|done]. intros body [= <-]. eexists. split; [reflexivity|].
    cbn [reanalyzeOnBackend countsOf blocked original reanalyzed blockedData
         original_flow_count reanalyzed_flow_count].
    rewrite length_rePredict.
    unfold transformBlockedData. cbn [blockedCount length].
    split_and!; [lia | lia | lia | done |].
    intros h [= <-]. simpl. lia.
Qed.

(** X27. A batch the gateway answers gets the gateway's labels: each
    of its flows comes back with the label at its index in the batch as
    prediction, "Error" where the gateway gave none, so always a truthy
    one, and with its stored label as [original_prediction]. *)
Theorem answered_batch_is_relabelled
    (flows : list JS.object) (i k : nat) (row : JS.object)
    (predictions : list JS.value) :
  (i mod BATCH_SIZE = 0)%nat → (k < BATCH_SIZE)%nat →
  flows !! (i + k)%nat = Some row →
  gateway i (map stripLabels (slice flows i (i + BATCH_SIZE)))
  = GatewayReplies (Some predictions) →
  ∃ row',
    rePredict gateway flows !! (i + k)%nat = Some row'
    ∧ JS.get row' "prediction" = labelAt predictions k
    ∧ JS.truthy (JS.get row' "prediction") = true
    ∧ (noLabelAt predictions k → JS.get row' "prediction" = JS.Str "Error")
    ∧ (∀ v, predictions !! k = Some v → JS.truthy v = true →
         JS.get row' "prediction" = v)
    ∧ JS.get row' "original_prediction" = JS.get row "prediction".
Proof.
  intros Hi Hk Hrow Hg.
  destruct (batch_position BATCH_SIZE i k Hi Hk) as [E1 E2].
  exists (rePredictRow predictions k row).
  rewrite rePredict_imap, list_lookup_imap, Hrow. simpl.
  unfold rePredictedAt. rewrite E2, Hg, E1.
  unfold rePredictRow. rewrite get_insert_eq, get_insert_ne by done.
  rewrite get_insert_eq. split_and!; [done | done | | | | done].
  - apply labelAt_truthy.
  - apply labelAt_missing.
  - intros v Hv Ht. unfold labelAt, JS.or. rewrite Hv. simpl. by rewrite Ht.
Qed.

End AnswerFacts.

(** ** The endpoint [/ingest/batch] *)

Section IngestBatchFacts.

Import Batch IngestBatch Replies.

Variable gateway : nat → list JS.object → gateway_reply.



End IngestBatchFacts.

(** ** The sample data *)

Lemma keysOf_enumerates (row : JS.object) : DbFunctions.enumerates keysOf row.
Proof.
  split.
  - apply NoDup_fst_map_to_list.
  - intros k. unfold keysOf. rewrite list_elem_of_fmap. split.
    + intros [[k' v] [-> H]]. apply elem_of_map_to_list in H. by exists v.
    + intros [v H]. exists (k, v). split; [done|]. by apply elem_of_map_to_list.
Qed.

(** A check of [noShadowedColumn] that runs over the keys of the row. *)
Lemma noShadowedColumn_check (row : JS.object) :
  forallb (λ k, String.eqb (DbFunctions.dbColumnName k) k
                || bool_decide (row !! DbFunctions.dbColumnName k = None))
          (keysOf row) = true →
  DbFunctions.noShadowedColumn row.
Proof.
  intros H k Hk Hne. rewrite forallb_forall in H.
  assert (Hin : k ∈ keysOf row) by (by apply keysOf_enumerates).
  apply list_elem_of_In in Hin. specialize (H k Hin).
  apply orb_true_iff in H as [H|H].
  - apply String.eqb_eq in H. by destruct Hne.
  - by apply bool_decide_eq_true_1 in H.
Qed.

(** ** Instances on the sample data *)

Import Sweep Evidence DbFunctions Replies Breakdown Transformer.

(** A sweep at 20000 followed by one at 30000 leaves what the sweep at
    30000 alone leaves: the detection at 25000. *)
Lemma sweep_sweep_witness :
  sweep 30000 (sweep 20000 {[ attacker := [1000; 15000; 25000]%Z ]})
  = sweep 30000 {[ attacker := [1000; 15000; 25000]%Z ]}
  ∧ sweep 30000 {[ attacker := [1000; 15000; 25000]%Z ]} !! attacker
    = Some [25000%Z].
Proof.
  split; [|reflexivity].
  apply (sweep_sweep 20000 30000 {[ attacker := [1000; 15000; 25000]%Z ]}).
  lia.
Defined.

(** A sweep at 12000 drops the detection at 1000, which an event at
    15000 does not count either. *)
Lemma record_after_sweep_witness :
  sweep 12000 threeDetections !! attacker = Some [5000; 14000]%Z
  ∧ recentDetections (sweep 12000 threeDetections) attacker 15000
    = recentDetections threeDetections attacker 15000
  ∧ (record (sweep 12000 threeDetections) attacker 15000).2
    = (record threeDetections attacker 15000).2.
Proof.
  split; [reflexivity|].
  apply (record_after_sweep 12000 15000 threeDetections attacker). lia.
Defined.

(** An event at 30000 has none of the three detections in its window. *)
Lemma record_restarts_witness :
  ∃ tr',
    aggregate threeDetections attacker 30000 = Some (tr', 1%nat)
    ∧ tr' !! attacker = Some [30000%Z].
Proof.
  apply (record_restarts threeDetections attacker 30000).
  - right. reflexivity.
  - intros t Ht. change (t ∈ [1000; 5000; 14000]%Z) in Ht.
    apply list_elem_of_In in Ht. simpl in Ht.
    unfold THRESHOLD_WINDOW_MS. lia.
Defined.

(** Two sources with thirty events each, taking turns: the attacker's
    sequence is the one its own thirty calls give. *)
Lemma keys_are_independent_witness :
  length twoSources = 60%nat
  ∧ length (List.filter (concerns attacker) twoSources) = 30%nat
  ∧ final_tracker (runCalls noDates twoSources ∅ []) !! attacker
    = final_tracker
        (runCalls noDates (List.filter (concerns attacker) twoSources) ∅ [])
      !! attacker
  ∧ insert_attempts (runCalls noDates twoSources ∅ []) = []
  ∧ final_store (runCalls noDates twoSources ∅ []) = [].
Proof.
  split; [reflexivity|]. split; [reflexivity|].
  destruct (keys_are_independent noDates attacker twoSources ∅ [])
    as (Htr & _ & Hins & Hdb).
  - vm_compute. reflexivity.
  - split_and!; [exact Htr | exact Hins | exact Hdb].
Defined.

(** The rule built at instant 2000 blocks the attacker at 5000 and no
    longer at its expiry, 3602000. *)
Lemma created_rule_blocks_until_expiry_witness :
  let o := manageDefenseRules noDates answering nearThreshold []
             (flowAt 1500) (JS.Str "DDoS") "job-1" 2000 in
  checkDefenseRule true 5000 (store o) (JS.Str attacker) = true
  ∧ checkDefenseRule true 3602000 (store o) (JS.Str attacker) = false.
Proof.
  split.
  - apply (created_rule_blocks_until_expiry noDates answering nearThreshold []
             (flowAt 1500) (JS.Str "DDoS") "job-1" 2000 5000).
    reflexivity.
  - apply (created_rule_blocks_until_expiry noDates answering nearThreshold []
             (flowAt 1500) (JS.Str "DDoS") "job-1" 2000 3602000).
    reflexivity.
Defined.

(** A long name and its database name go to the same column. *)
Lemma dbColumnName_collision_witness :
  dbColumnName "total_fwd_packets" = "tot_fwd_pkts"
  ∧ ("total_fwd_packets" = "tot_fwd_pkts"
     ∨ "tot_fwd_pkts" = dbColumnName "total_fwd_packets"
     ∨ "total_fwd_packets" = dbColumnName "tot_fwd_pkts").
Proof.
  split; [reflexivity|].
  apply (dbColumnName_collision "total_fwd_packets" "tot_fwd_pkts").
  reflexivity.
Defined.

(** A row with the column under both names: the name enumerated last
    gives the value. *)
Lemma mappedRow_last_key_wins_witness :
  mappedRowFrom ["tot_fwd_pkts"; "total_fwd_packets"; "src_ip"]
    (<["tot_fwd_pkts" := JS.Num 7]> uploadedRow) !! "tot_fwd_pkts"
  = Some (JS.Num 12).
Proof.
  refine (mappedRow_last_key_wins ["tot_fwd_pkts"] ["src_ip"]
            "total_fwd_packets" (<["tot_fwd_pkts" := JS.Num 7]> uploadedRow) _).
  intros k' Hk'. apply list_elem_of_In in Hk'. simpl in Hk'.
  destruct Hk' as [<-|[]]. intros E. vm_compute in E. discriminate.
Defined.

(** The uploaded row is saved with its long name replaced. *)
Lemma mappedRow_exact_witness :
  mappedRow keysOf uploadedRow !! "tot_fwd_pkts" = Some (JS.Num 12).
Proof.
  refine (proj1 (mappedRow_exact keysOf uploadedRow (keysOf_enumerates _)
                   (noShadowedColumn_check _ _))
            "total_fwd_packets" (JS.Num 12) _).
  - vm_compute. reflexivity.
  - reflexivity.
Defined.

(** [src_ip] is not a column of the table, and is saved as it is. *)
Lemma mappedRow_keeps_unlisted_witness :
  mappedRow keysOf uploadedRow !! "src_ip" = Some (JS.Str attacker).
Proof.
  refine (eq_trans
            (mappedRow_keeps_unlisted keysOf uploadedRow "src_ip"
               (keysOf_enumerates _) _) _).
  - apply (bool_decide_eq_true_1 _). vm_compute. reflexivity.
  - reflexivity.
Defined.

(** The attacker's flow is blocked before and after it is saved. *)
Lemma saving_preserves_decision_witness :
  JS.get (mappedRow keysOf attackFlow) "prediction" = JS.Str "DDoS"
  ∧ isBlockedByPolicy noDates
      (buildBlockedIpMap (selectActiveRules true 1000 [oldRule]))
      (mappedRow keysOf attackFlow)
    = Some true.
Proof.
  destruct (saving_preserves_decision noDates keysOf
              (buildBlockedIpMap (selectActiveRules true 1000 [oldRule]))
              attackFlow (keysOf_enumerates _)) as (Hp & _ & Hb).
  split.
  - exact (eq_trans Hp eq_refl).
  - exact (eq_trans Hb eq_refl).
Defined.


(** The first row gets the gateway's label and is submitted with it. *)
Lemma submission_iff_label_malicious_witness :
  ∃ r sub,
    analyzeCsv gatewayShort "job-1" [flowAt 1; flowAt 2] !! 0%nat
    = Some (r, sub)
    ∧ (sub = None
       ↔ JS.get r "prediction" = JS.Str "benign"
         ∨ JS.get r "prediction" = JS.Str "Error")
    ∧ ∀ s, sub = Some s →
        s = {| s_row := flowAt 1; s_prediction := JS.get r "prediction";
               s_jobId := "job-1" |}.
Proof.
  destruct (analyzeCsv gatewayShort "job-1" [flowAt 1; flowAt 2])
    as [|[r sub] rest] eqn:E.
  { apply (f_equal length) in E. vm_compute in E. discriminate. }
  exists r, sub. split; [reflexivity|].
  destruct (submission_iff_label_malicious gatewayShort "job-1"
              [flowAt 1; flowAt 2] 0 r sub)
    as (row & Hrow & Hnone & Hsome).
  - left. rewrite E. reflexivity.
  - injection Hrow as <-. split; assumption.
Defined.

(** With the gateway down the second row is an "Error" row in both
    loops. *)
Lemma failed_ingest_batch_is_Error_witness :
  analyzeCsv gatewayDown "job-1" [flowAt 1; flowAt 2] !! 1%nat
  = Some (errorRow "job-1" (flowAt 2), None)
  ∧ analyzeApi gatewayDown "job-1" [flowAt 1; flowAt 2] !! 1%nat
    = Some (errorRow "job-1" (flowAt 2), None).
Proof.
  destruct (failed_ingest_batch_is_Error gatewayDown "job-1"
              [flowAt 1; flowAt 2] 0 1 (flowAt 2)) as [Hcsv Hapi].
  - reflexivity.
  - unfold Ingest.BATCH_SIZE. lia.
  - reflexivity.
  - split; [exact (Hcsv I) | exact (Hapi I)].
Defined.


(** The blocked attacker's flow is counted under the marker. *)
Lemma blocked_breakdown_is_the_marker_witness :
  threatBreakdown (transformBlockedData [markBlocked attackFlow])
  = [("Rule_Blocked_Historical", Count 1)].
Proof.
  refine (proj1 (blocked_breakdown_is_the_marker noDates
                   (buildBlockedIpMap (selectActiveRules true 1000 [oldRule]))
                   [attackFlow; benignFlow] [benignFlow]
                   [markBlocked attackFlow] _ _)).
  - vm_cast_no_check (eq_refl (Some ([benignFlow], [markBlocked attackFlow]))).
  - intros r Hr. apply list_elem_of_In in Hr. simpl in Hr.
    destruct Hr as [<-|[<-|[]]]; reflexivity.
Defined.

(** After the rule has expired both flows of the job are re-predicted. *)
Lemma without_active_rules_nothing_blocked_witness :
  reanalyzeRules noDates gatewayDown nat countRows
    (laterWorldOf [attackFlow; benignFlow]) (JS.Str "job-1")
  = Reanalyzed
      {| finalDashboardData := 2%nat; r_analysis_id := JS.Str "job-1";
         original_flow_count := 2; reanalyzed_flow_count := 2;
         blockedData := {| blockedCount := 0; threatBreakdown := [];
                           recentFlows := [] |} |}.
Proof.
  refine (proj2 (without_active_rules_nothing_blocked noDates gatewayDown nat
                   countRows (laterWorldOf [attackFlow; benignFlow])
                   (JS.Str "job-1") [attackFlow; benignFlow] 2%nat
                   eq_refl _ _ _ _ _ _)).
  - right. intros r Hr. apply list_elem_of_In in Hr. simpl in Hr.
    destruct Hr as [<-|[]]. reflexivity.
  - vm_cast_no_check (eq_refl (Some [attackFlow; benignFlow])).
  - discriminate.
  - repeat (constructor; [eexists; reflexivity|]). constructor.
  - repeat (constructor; [split; reflexivity|]). constructor.
  - vm_cast_no_check (eq_refl (Some 2%nat)).
Defined.

(** A summary that cannot be built is a server error. *)
Lemma server_error_iff_witness :
  reanalyzeRules noDates gatewayDown nat noSummary
    (worldOf [benignFlow]) (JS.Str "job-1")
  = ServerError.
Proof.
  refine (proj2 (server_error_iff noDates gatewayDown nat noSummary
                   (worldOf [benignFlow]) (JS.Str "job-1") eq_refl) _).
  exists [benignFlow]. split_and!; [reflexivity | discriminate |].
  right. exists [benignFlow], []. split_and!; [|discriminate|reflexivity].
  vm_cast_no_check (eq_refl (Some ([benignFlow], @nil JS.object))).
Defined.

(** The gateway's label replaces the stored one, which is kept as the
    original prediction. *)
Lemma answered_batch_is_relabelled_witness :
  ∃ row',
    rePredict gatewayShort [otherFlow] !! 0%nat = Some row'
    ∧ JS.get row' "prediction" = JS.Str "DDoS"
    ∧ JS.get row' "original_prediction" = JS.Str "PortScan".
Proof.
  destruct (answered_batch_is_relabelled gatewayShort [otherFlow] 0 0
              otherFlow [JS.Str "DDoS"])
    as (row' & Hrow & Hlabel & _ & _ & _ & Horig).
  - reflexivity.
  - unfold Reanalysis.BATCH_SIZE. lia.
  - reflexivity.
  - reflexivity.
  - exists row'. split_and!; [exact Hrow | exact Hlabel | exact Horig].
Defined.

(** At 30000 none of the three detections is fresh: the key is deleted. *)
Lemma sweep_keeps_fresh_only_witness :
  sweep 30000 threeDetections !! attacker = None.
Proof.
  refine (proj2 (proj2 (proj2 (sweep_keeps_fresh_only 30000 threeDetections
                                 attacker))) _).
  intros old t Hold Ht.
  change (Some [1000; 5000; 14000]%Z = Some old) in Hold.
  injection Hold as <-. apply list_elem_of_In in Ht. simpl in Ht.
  unfold THRESHOLD_WINDOW_MS. lia.
Defined.

(** The flow's time is its [timestamp]. *)
Lemma flowTime_first_usable_field_witness :
  flowTime noDates (flowAt 1500) = Some 1500%Z.
Proof.
  refine (proj2 (proj1 (flowTime_first_usable_field noDates (flowAt 1500)
                          1500)) _).
  exists 0%nat, "timestamp". split_and!; [reflexivity | reflexivity |].
  intros j earlier Hj. lia.
Defined.

(** A flow whose source is "UNKNOWN" leaves everything as it was. *)
Lemma unresolved_evidence_is_skipped_witness :
  manageDefenseRules noDates answering nearThreshold []
    (<["src_ip" := JS.Str "UNKNOWN"]> (flowAt 1500)) (JS.Str "DDoS")
    "job-1" 2000
  = {| result := Returns false; tracker := nearThreshold; store := [];
       insert_attempt := None |}.
Proof.
  refine (proj2 (unresolved_evidence_is_skipped noDates answering
                   nearThreshold []
                   (<["src_ip" := JS.Str "UNKNOWN"]> (flowAt 1500))
                   (JS.Str "DDoS") "job-1" 2000) _).
  left. reflexivity.
Defined.

(** The fiftieth detection returns true, and the store has one rule
    more. *)
Lemma returns_true_iff_stored_witness :
  ∃ created,
    store (manageDefenseRules noDates answering nearThreshold []
             (flowAt 1500) (JS.Str "DDoS") "job-1" 2000)
    = [{| created_at := 2000; rule := created |}]
    ∧ ip_address created = attacker.
Proof.
  destruct (returns_true_iff_stored noDates answering nearThreshold []
              (flowAt 1500) (JS.Str "DDoS") "job-1" 2000)
    as (Hiff & _ & Hrule).
  destruct (proj1 Hiff eq_refl) as [created Hstore].
  exists created. split; [exact Hstore|].
  destruct (Hrule created Hstore) as (Hkey & _).
  change (Some attacker = Some (ip_address created)) in Hkey.
  by injection Hkey.
Defined.

(** The attacker is blocked while the old rule is active. *)
Lemma checkDefenseRule_true_iff_witness :
  checkDefenseRule true 1000 [oldRule] (JS.Str attacker) = true.
Proof.
  refine (proj2 (checkDefenseRule_true_iff true 1000 [oldRule]
                   (JS.Str attacker)) _).
  split_and!; [reflexivity | discriminate | reflexivity |].
  exists oldRule. split_and!; [apply list_elem_of_here | reflexivity..].
Defined.

(** Two rows in, two labelled rows out. *)
Lemma ingest_keeps_every_row_witness :
  length (analyzeCsv gatewayShort "job-1" [flowAt 1; flowAt 2]) = 2%nat
  ∧ length (analyzeApi gatewayDown "job-1" [flowAt 1; flowAt 2]) = 2%nat.
Proof.
  split.
  - exact (proj1 (proj1 (ingest_keeps_every_row gatewayShort "job-1"
                           [flowAt 1; flowAt 2]))).
  - exact (proj1 (proj2 (ingest_keeps_every_row gatewayDown "job-1"
                           [flowAt 1; flowAt 2]))).
Defined.

(** Two blocked flows, one marked and one with its stored label. *)
Lemma blocked_summary_counts_each_row_witness :
  blockedCount (transformBlockedData [markBlocked attackFlow; otherFlow])
  = 2%nat
  ∧ ("Rule_Blocked_Historical", Count 1)
    ∈ threatBreakdown
        (transformBlockedData [markBlocked attackFlow; otherFlow]).
Proof.
  destruct (blocked_summary_counts_each_row
              [markBlocked attackFlow; otherFlow])
    as (Hcount & _ & Hnames & _).
  split; [exact Hcount|].
  refine (proj2 (Hnames "Rule_Blocked_Historical" eq_refl) _).
  vm_compute. discriminate.
Defined.

(** A job whose only flow is blocked: the client shows no charts and
    zero counts. *)
Lemma client_counts_match_report_witness :
  Client.reanalyzeOnBackend noFormat
    (reanalyzeRules noDates gatewayDown nat countRows
       (worldOf [attackFlow]) (JS.Str "job-1"))
  = Client.Shown None None
      {| Client.original := 0; Client.reanalyzed := 0; Client.blocked := 0;
         Client.blockedPercentage := JS.Num 0 |}.
Proof.
  refine (proj1 (proj2 (client_counts_match_report noDates gatewayDown nat
                          countRows noFormat (worldOf [attackFlow])
                          (JS.Str "job-1"))
                   (JS.Str "job-1") _)).
  vm_cast_no_check (eq_refl (@AllFiltered nat (JS.Str "job-1"))).
Defined.

